(** * reminder-lab: the Reminder record and its RemindersHandler

    A shallow embedding of the two TypeScript classes of the repository:

    - [Reminder] (the class that follows [RemindersHandler] in
      src/RemindersHandler.ts),
    - [RemindersHandler], the complete handler of src/RemindersHandler.ts,
    - [Part000], the second copy of the handler class (unnamed/part_000),
      several of whose methods are still placeholders.

    JavaScript objects are mutable and shared by reference, so the classes
    are modelled over an explicit heap: reminder objects and arrays live in
    a store and are named by locations.  A thrown exception keeps every
    write made before the [throw], hence the monad returns the heap in the
    error case too.  An [index: number] is an integer ([Z]); the empty
    value [undefined] of an array read is [None]. *)

From Stdlib Require Import ZArith String Ascii List Lia.
From stdpp Require Import base option list gmap strings.

Local Open Scope string_scope.
Local Open Scope list_scope.

(** ** Strings *)

(** A string is a sequence of character codes.
    [String.prototype.toLowerCase] is a built-in of the language.  The
    development is generic in it; [ascii_toLowerCase] below is its
    behaviour on ASCII text and is used to run the code on examples. *)
Class Lowercase := toLowerCase : string -> string.

Definition ascii_lower (c : ascii) : ascii :=
  let n := nat_of_ascii c in
  if (Nat.leb 65 n && Nat.leb n 90)%bool then ascii_of_nat (n + 32) else c.

Fixpoint ascii_toLowerCase (s : string) : string :=
  match s with
  | EmptyString => EmptyString
  | String c s' => String (ascii_lower c) (ascii_toLowerCase s')
  end.

(** [s.startsWith(p)] *)
Fixpoint startsWith (s p : string) : bool :=
  match p, s with
  | EmptyString, _ => true
  | String _ _, EmptyString => false
  | String c p', String d s' =>
      if Ascii.eqb c d then startsWith s' p' else false
  end.

(** [s.includes(k)]: [k] occurs in [s] at some position. *)
Fixpoint includes (s k : string) : bool :=
  startsWith s k ||
  match s with
  | EmptyString => false
  | String _ s' => includes s' k
  end.

(** ** Heap, exceptions and the state-and-exception monad *)

(** Locations: positions in the two stores of the heap. *)
Abbreviation loc := nat (only parsing).

(** The three private fields of a [Reminder] instance. *)
Record ReminderObj := mkReminder {
  _description : string;
  _tag : string;
  _isCompleted : bool
}.

Record Heap := mkHeap {
  reminderObjs : list ReminderObj;   (* Reminder instances *)
  arrays : list (list loc)           (* Reminder[] instances *)
}.

Definition empty_heap : Heap := mkHeap [] [].

(** [new Error(message)], and the engine's own [TypeError]. *)
Inductive Exn :=
| Error (message : string)
| TypeError.

Definition InvalidIndex : Exn := Error "ReminderError: Invalid index".
Definition NotYetImplemented : Exn := Error "Not yet implemented".

Definition M (A : Type) : Type := Heap -> (Exn + A) * Heap.

Definition ret {A} (a : A) : M A := fun h => (inr a, h).

Definition bind {A B} (m : M A) (k : A -> M B) : M B :=
  fun h =>
    match m h with
    | (inl e, h') => (inl e, h')
    | (inr a, h') => k a h'
    end.

Definition throw {A} (e : Exn) : M A := fun h => (inl e, h).

Notation "x <- m ;; k" := (bind m (fun x => k))
  (at level 100, m at next level, right associativity).
Notation "m ;;; k" := (bind m (fun _ => k))
  (at level 100, right associativity).

(** *** Reminder objects in the heap *)

Definition obj_new (r : ReminderObj) : M loc :=
  fun h => (inr (length (reminderObjs h)),
            mkHeap (reminderObjs h ++ [r]) (arrays h)).

Definition obj_read (l : loc) : M ReminderObj :=
  fun h =>
    match reminderObjs h !! l with
    | Some r => (inr r, h)
    | None => (inl TypeError, h)
    end.

Definition obj_write (l : loc) (r : ReminderObj) : M unit :=
  fun h => (inr tt, mkHeap (<[l := r]> (reminderObjs h)) (arrays h)).

(** *** Arrays in the heap *)

(** [[...xs]] and [[]]: a new array with the given elements. *)
Definition array_new (xs : list loc) : M loc :=
  fun h => (inr (length (arrays h)),
            mkHeap (reminderObjs h) (arrays h ++ [xs])).

Definition array_read (a : loc) : M (list loc) :=
  fun h =>
    match arrays h !! a with
    | Some xs => (inr xs, h)
    | None => (inl TypeError, h)
    end.

(** [a.length] *)
Definition array_length (a : loc) : M Z :=
  xs <- array_read a ;; ret (Z.of_nat (length xs)).

(** [a[index]]: [None] is [undefined]. *)
Definition array_get (a : loc) (index : Z) : M (option loc) :=
  xs <- array_read a ;;
  ret (if (index <? 0)%Z then None else xs !! Z.to_nat index).

(** [a.push(x)] *)
Definition array_push (a : loc) (x : loc) : M unit :=
  xs <- array_read a ;;
  fun h => (inr tt, mkHeap (reminderObjs h) (<[a := xs ++ [x]]> (arrays h))).

(** [a.pop()] *)
Definition array_pop (a : loc) : M (option loc) :=
  xs <- array_read a ;;
  fun h => (inr (last xs),
            mkHeap (reminderObjs h) (<[a := removelast xs]> (arrays h))).

(** A method call [v.m(...)] on a value that may be [undefined]. *)
Definition on_object {A} (v : option loc) (m : loc -> M A) : M A :=
  match v with
  | Some l => m l
  | None => throw TypeError
  end.

(** [xs.filter(p)] for a predicate [p] that reads the heap. *)
Fixpoint filterM (p : loc -> M bool) (xs : list loc) : M (list loc) :=
  match xs with
  | [] => ret []
  | x :: xs' =>
      b <- p x ;;
      rest <- filterM p xs' ;;
      ret (if b then x :: rest else rest)
  end.

(** ** class Reminder *)

Module Reminder.

(** [constructor(description, tag, isCompleted)].  The third argument is
    absent ([None]) when the caller passes two arguments. *)
Definition constructor (description tag : string)
           (isCompleted : option bool) : M loc :=
  obj_new (mkReminder description tag false).

(** [get description()] *)
Definition get_description (this : loc) : M string :=
  r <- obj_read this ;; ret (_description r).

(** [set description(description)] *)
Definition set_description (this : loc) (description : string) : M unit :=
  r <- obj_read this ;;
  obj_write this (mkReminder description (_tag r) (_isCompleted r)).

(** [get tag()] *)
Definition get_tag (this : loc) : M string :=
  r <- obj_read this ;; ret (_tag r).

(** [set tag(tag)] *)
Definition set_tag (this : loc) (tag : string) : M unit :=
  r <- obj_read this ;;
  obj_write this (mkReminder (_description r) tag (_isCompleted r)) ;;;
  throw NotYetImplemented.

(** [get isCompleted()] *)
Definition get_isCompleted (this : loc) : M bool :=
  r <- obj_read this ;; ret (_isCompleted r).

(** [toggleCompletion()] *)
Definition toggleCompletion (this : loc) : M unit :=
  v <- get_isCompleted this ;;
  r <- obj_read this ;;
  obj_write this (mkReminder (_description r) (_tag r) v) ;;;
  throw NotYetImplemented.

End Reminder.

(** ** The grouping object of [groupByTag]

    [RemindersGroupingByTag] is a plain object literal [{}] used as a map
    from tag to array.  Its own properties are the groups; a read
    [groupings[key]] of a key that is not an own property falls through to
    [Object.prototype], whose members are functions (or, for [__proto__],
    the prototype object itself): truthy values without a [push] method. *)

Definition Object_prototype_keys : list string :=
  [ "constructor"; "__proto__"; "hasOwnProperty"; "isPrototypeOf";
    "propertyIsEnumerable"; "toLocaleString"; "toString"; "valueOf";
    "__defineGetter__"; "__defineSetter__";
    "__lookupGetter__"; "__lookupSetter__" ].

Inductive Property :=
| Own (members : list loc)   (* an array stored by [groupByTag] *)
| Inherited                  (* a member of [Object.prototype] *)
| Undefined.

Definition get_property (groupings : gmap string (list loc)) (key : string)
  : Property :=
  match groupings !! key with
  | Some members => Own members
  | None =>
      if bool_decide (key ∈ Object_prototype_keys) then Inherited
      else Undefined
  end.

(** [!v] *)
Definition falsy (v : Property) : bool :=
  match v with
  | Undefined => true
  | Own _ | Inherited => false
  end.

(** [groupings[key].push(reminder)] *)
Definition push_property (groupings : gmap string (list loc)) (key : string)
           (reminder : loc) : M (gmap string (list loc)) :=
  match get_property groupings key with
  | Own members => ret (<[key := members ++ [reminder]]> groupings)
  | Inherited | Undefined => throw TypeError
  end.

(** ** class RemindersHandler (src/RemindersHandler.ts) *)

Module RemindersHandler.

Record t := mk { _reminders : loc }.

Section Methods.
Context `{Lowercase}.

Definition constructor : M t :=
  a <- array_new [] ;; ret (mk a).

(** [get reminders()] *)
Definition reminders (this : t) : M loc :=
  xs <- array_read (_reminders this) ;; array_new xs.

Definition size (this : t) : M Z :=
  array_length (_reminders this).

Definition isIndexValid (this : t) (index : Z) : M bool :=
  n <- size this ;;
  if (n =? 0)%Z then ret false else
  n' <- size this ;;
  if ((index <? 0)%Z || (index + 1 >? n')%Z)%bool then ret false
  else ret true.

Definition addReminder (this : t) (description tag : string) : M unit :=
  newReminder <- Reminder.constructor description tag None ;;
  array_push (_reminders this) newReminder.

Definition getReminder (this : t) (index : Z) : M (option loc) :=
  valid <- isIndexValid this index ;;
  if negb valid then throw InvalidIndex
  else array_get (_reminders this) index.

Definition modifyReminder (this : t) (index : Z) (description : string)
  : M unit :=
  valid <- isIndexValid this index ;;
  if negb valid then ret tt else
  reminder <- array_get (_reminders this) index ;;
  on_object reminder (fun r => Reminder.set_description r description).

Definition toggleCompletion (this : t) (index : Z) : M unit :=
  valid <- isIndexValid this index ;;
  if negb valid then ret tt else
  reminder <- array_get (_reminders this) index ;;
  on_object reminder Reminder.toggleCompletion.

Definition searchTags (this : t) (keyword : string) : M (list loc) :=
  xs <- array_read (_reminders this) ;;
  filterM (fun reminder =>
             tag <- Reminder.get_tag reminder ;;
             ret (String.eqb (toLowerCase tag) keyword)) xs.

Definition searchDescriptions (this : t) (keyword : string)
  : M (list loc) :=
  xs <- array_read (_reminders this) ;;
  filterM (fun reminder =>
             description <- Reminder.get_description reminder ;;
             ret (includes (toLowerCase description) keyword)) xs.

Definition search (this : t) (keyword : string) : M (list loc) :=
  let keywordLower := toLowerCase keyword in
  results <- searchTags this keywordLower ;;
  if (Z.of_nat (length results) =? 0)%Z
  then searchDescriptions this keywordLower
  else ret results.

(** The body of the [for ... of] loop, over the remaining elements. *)
Fixpoint groupByTag_loop (rs : list loc)
         (groupings : gmap string (list loc))
  : M (gmap string (list loc)) :=
  match rs with
  | [] => ret groupings
  | reminder :: rest =>
      t <- Reminder.get_tag reminder ;;
      let tag := toLowerCase t in
      let groupings1 :=
        if falsy (get_property groupings tag)
        then <[tag := []]> groupings else groupings in
      groupings2 <- push_property groupings1 tag reminder ;;
      groupByTag_loop rest groupings2
  end.

Definition groupByTag (this : t) : M (gmap string (list loc)) :=
  xs <- array_read (_reminders this) ;;
  groupByTag_loop xs ∅.

End Methods.

End RemindersHandler.

(** ** class RemindersHandler, second copy (unnamed/part_000) *)

Module Part000.

Record t := mk { _reminders : loc; _tag : string }.

Section Methods.
Context `{Lowercase}.

Definition constructor (tag : string) : M t :=
  a <- array_new [] ;; ret (mk a tag).

(** [get reminders()] *)
Definition reminders (this : t) : M loc :=
  ret (_reminders this).

Definition addReminder (this : t) (description tag : string) : M unit :=
  reminder <- Reminder.constructor description tag (Some false) ;;
  a <- reminders this ;;
  array_push a reminder.

Definition getReminder (this : t) (index : Z) : M (option loc) :=
  throw NotYetImplemented.

Definition size (this : t) : M Z :=
  array_length (_reminders this).

Definition isIndexValid (this : t) (index : Z) : M bool :=
  n <- size this ;;
  if (n =? 0)%Z then ret false else
  n' <- size this ;;
  if ((index <? 0)%Z || (index + 1 >? n')%Z)%bool then ret false
  else ret true.

Definition modifyReminder (this : t) (index : Z) (description : string)
  : M unit :=
  throw NotYetImplemented.

Definition toggleCompletion (this : t) (index : Z) : M unit :=
  throw NotYetImplemented.

Definition search (this : t) (keyword : string) : M (list loc) :=
  xs <- array_read (_reminders this) ;;
  tagMatches <-
    filterM (fun reminder =>
               tag <- Reminder.get_tag reminder ;;
               ret (String.eqb tag keyword)) xs ;;
  if (Z.of_nat (length tagMatches) >? 0)%Z then ret tagMatches else
  xs' <- array_read (_reminders this) ;;
  filterM (fun reminder =>
             description <- Reminder.get_description reminder ;;
             ret (includes (toLowerCase description)
                           (toLowerCase keyword))) xs'.

Fixpoint groupByTag_loop (rs : list loc)
         (groupings : gmap string (list loc))
  : M (gmap string (list loc)) :=
  match rs with
  | [] => ret groupings
  | reminder :: rest =>
      tag <- Reminder.get_tag reminder ;;
      groupings1 <-
        (if falsy (get_property groupings tag)
         then ret (<[tag := []]> groupings)
         else push_property groupings tag reminder) ;;
      groupByTag_loop rest groupings1
  end.

Definition groupByTag (this : t) : M (gmap string (list loc)) :=
  xs <- array_read (_reminders this) ;;
  groupByTag_loop xs ∅.

(** [searchTags] has no [return]: it yields [undefined] ([None]). *)
Definition searchTags (this : t) (keyword : string)
  : M (option (list loc)) :=
  if String.eqb keyword (_tag this) then throw NotYetImplemented
  else ret None.

Definition searchDescriptions (this : t) (keyword : string)
  : M (list loc) :=
  throw NotYetImplemented.

End Methods.

End Part000.

(** ** Views of the heap *)

(** The tag, description and completion flag of the reminder at [l]. *)
Definition tagOf (h : Heap) (l : loc) : string :=
  from_option _tag "" (reminderObjs h !! l).

Definition descriptionOf (h : Heap) (l : loc) : string :=
  from_option _description "" (reminderObjs h !! l).

(** [holds h a xs]: in [h] the array [a] is the sequence [xs] of distinct,
    live reminder objects.  This is the state of a handler whose
    [_reminders] field is [a]. *)
Definition holds (h : Heap) (a : loc) (xs : list loc) : Prop :=
  arrays h !! a = Some xs /\
  Forall (fun l => is_Some (reminderObjs h !! l)) xs /\
  NoDup xs.


(** The completion flag of the reminder at [l] ([None] if [l] is not a
    reminder of [h]). *)
Definition isCompletedOf (h : Heap) (l : loc) : option bool :=
  _isCompleted <$> reminderObjs h !! l.

(** The pure counterparts of the two callbacks of [search]. *)
Definition tagMatches `{Lowercase} (h : Heap) (keyword : string) (l : loc)
  : bool :=
  String.eqb (toLowerCase (tagOf h l)) (toLowerCase keyword).

Definition descriptionMatches `{Lowercase} (h : Heap) (keyword : string)
           (l : loc) : bool :=
  includes (toLowerCase (descriptionOf h l)) (toLowerCase keyword).

(** The members of the group [key]: the reminders of [xs] whose lowercased
    tag is [key], in the order of [xs]. *)
Definition membersOf `{Lowercase} (h : Heap) (xs : list loc) (key : string)
  : list loc :=
  List.filter (fun l => String.eqb (toLowerCase (tagOf h l)) key) xs.

(** The grouping that [xs] determines: a key is present exactly when it
    has a member. *)
Definition groupingOf `{Lowercase} (h : Heap) (xs : list loc) (key : string)
  : option (list loc) :=
  match membersOf h xs key with
  | [] => None
  | ms => Some ms
  end.

(** ** A Hoare triple for the monad

    [hoare P m Q E]: started in a heap satisfying [P], [m] either returns
    [a] in a heap satisfying [Q a] or throws [e] in a heap satisfying
    [E e]. *)
Definition hoare {A} (P : Heap -> Prop) (m : M A)
           (Q : A -> Heap -> Prop) (E : Exn -> Heap -> Prop) : Prop :=
  forall h, P h ->
    match m h with
    | (inr a, h') => Q a h'
    | (inl e, h') => E e h'
    end.

(** ** The operations of the system, as a client may invoke them *)

Inductive Call :=
(* class Reminder *)
| NewReminder (description tag : string) (isCompleted : option bool)
| GetDescription (r : loc)
| SetDescription (r : loc) (description : string)
| GetTag (r : loc)
| SetTag (r : loc) (tag : string)
| GetIsCompleted (r : loc)
| ToggleCompletion (r : loc)
(* class RemindersHandler *)
| NewHandler
| Reminders (this : RemindersHandler.t)
| AddReminder (this : RemindersHandler.t) (description tag : string)
| GetReminder (this : RemindersHandler.t) (index : Z)
| IsIndexValid (this : RemindersHandler.t) (index : Z)
| Size (this : RemindersHandler.t)
| ModifyReminder (this : RemindersHandler.t) (index : Z) (description : string)
| ToggleCompletionAt (this : RemindersHandler.t) (index : Z)
| Search (this : RemindersHandler.t) (keyword : string)
| GroupByTag (this : RemindersHandler.t)
(* the second copy of the handler *)
| NewHandler' (tag : string)
| Reminders' (this : Part000.t)
| AddReminder' (this : Part000.t) (description tag : string)
| GetReminder' (this : Part000.t) (index : Z)
| IsIndexValid' (this : Part000.t) (index : Z)
| Size' (this : Part000.t)
| ModifyReminder' (this : Part000.t) (index : Z) (description : string)
| ToggleCompletionAt' (this : Part000.t) (index : Z)
| Search' (this : Part000.t) (keyword : string)
| GroupByTag' (this : Part000.t)
(* what a client can do to an array it was handed *)
| ArrayPush (a x : loc)
| ArrayPop (a : loc).

(** Run an operation and drop its result. *)
Definition void {A} (m : M A) : M unit := _ <- m ;; ret tt.

Definition run `{Lowercase} (c : Call) : M unit :=
  match c with
  | NewReminder d t b => void (Reminder.constructor d t b)
  | GetDescription r => void (Reminder.get_description r)
  | SetDescription r d => Reminder.set_description r d
  | GetTag r => void (Reminder.get_tag r)
  | SetTag r t => Reminder.set_tag r t
  | GetIsCompleted r => void (Reminder.get_isCompleted r)
  | ToggleCompletion r => Reminder.toggleCompletion r
  | NewHandler => void RemindersHandler.constructor
  | Reminders this => void (RemindersHandler.reminders this)
  | AddReminder this d t => RemindersHandler.addReminder this d t
  | GetReminder this i => void (RemindersHandler.getReminder this i)
  | IsIndexValid this i => void (RemindersHandler.isIndexValid this i)
  | Size this => void (RemindersHandler.size this)
  | ModifyReminder this i d => RemindersHandler.modifyReminder this i d
  | ToggleCompletionAt this i => RemindersHandler.toggleCompletion this i
  | Search this k => void (RemindersHandler.search this k)
  | GroupByTag this => void (RemindersHandler.groupByTag this)
  | NewHandler' t => void (Part000.constructor t)
  | Reminders' this => void (Part000.reminders this)
  | AddReminder' this d t => Part000.addReminder this d t
  | GetReminder' this i => void (Part000.getReminder this i)
  | IsIndexValid' this i => void (Part000.isIndexValid this i)
  | Size' this => void (Part000.size this)
  | ModifyReminder' this i d => Part000.modifyReminder this i d
  | ToggleCompletionAt' this i => Part000.toggleCompletion this i
  | Search' this k => void (Part000.search this k)
  | GroupByTag' this => void (Part000.groupByTag this)
  | ArrayPush a x => array_push a x
  | ArrayPop a => void (array_pop a)
  end.

(** The heap after a sequence of operations; an exception is caught by
    the client, and the writes made before it stay. *)
Fixpoint exec `{Lowercase} (cs : list Call) (h : Heap) : Heap :=
  match cs with
  | [] => h
  | c :: cs' => exec cs' (snd (run c h))
  end.

(** Every reminder object of the heap is not completed. *)
Definition all_incomplete (h : Heap) : Prop :=
  Forall (fun r => _isCompleted r = false) (reminderObjs h).

(** [n] calls of [addReminder], with the given arguments. *)
Fixpoint addReminders (this : RemindersHandler.t)
         (args : list (string * string)) : M unit :=
  match args with
  | [] => ret tt
  | (description, tag) :: rest =>
      RemindersHandler.addReminder this description tag ;;;
      addReminders this rest
  end.

Fixpoint addReminders' (this : Part000.t)
         (args : list (string * string)) : M unit :=
  match args with
  | [] => ret tt
  | (description, tag) :: rest =>
      Part000.addReminder this description tag ;;;
      addReminders' this rest
  end.

(** [0 <= index < xs.length] *)
Definition inRange (xs : list loc) (index : Z) : bool :=
  ((0 <=? index)%Z && (index <? Z.of_nat (length xs))%Z)%bool.

(** The heap after pushing a new reminder on the array [a] = [xs]. *)
Definition added (h : Heap) (a : loc) (xs : list loc)
           (description tag : string) : Heap :=
  mkHeap (reminderObjs h ++ [mkReminder description tag false])
         (<[a := xs ++ [length (reminderObjs h)]]> (arrays h)).

(** ** Example states *)

(** A handler (at array [0]) holding two reminders. *)
Definition two_reminders : Heap :=
  mkHeap [ mkReminder "Buy Milk" "Grocery" false;
           mkReminder "Buy eggs" "grocery" false ]
         [ [0%nat; 1%nat] ].

(** [keeps m phi]: [m] preserves [all_incomplete], whether it returns or
    throws, and its result satisfies [phi]. *)
Definition keeps {A} (m : M A) (phi : A -> Prop) : Prop :=
  hoare all_incomplete m
        (fun a h => all_incomplete h /\ phi a)
        (fun _ h => all_incomplete h).

(** [never_invalid m]: [m] does not raise the InvalidIndex error. *)
Definition never_invalid {A} (m : M A) : Prop :=
  hoare (fun _ => True) m (fun _ _ => True) (fun e _ => e <> InvalidIndex).

(** The calls of [getReminder]. *)
Definition is_getReminder (c : Call) : bool :=
  match c with
  | GetReminder _ _ | GetReminder' _ _ => true
  | _ => false
  end.

(** The same state, built by the operations of either handler class. *)
Definition setup_two : M RemindersHandler.t :=
  this <- RemindersHandler.constructor ;;
  RemindersHandler.addReminder this "Buy Milk" "Grocery" ;;;
  RemindersHandler.addReminder this "Buy eggs" "grocery" ;;;
  ret this.

Definition setup_two' : M Part000.t :=
  this <- Part000.constructor "" ;;
  Part000.addReminder this "Buy Milk" "Grocery" ;;;
  Part000.addReminder this "Buy eggs" "grocery" ;;;
  ret this.

(** The reminders [a], [b], [c] tagged [Work], [work], [Home]. *)
Definition work_home : Heap :=
  mkHeap [ mkReminder "a" "Work" false;
           mkReminder "b" "work" false;
           mkReminder "c" "Home" false ]
         [ [0%nat; 1%nat; 2%nat] ].

(** One reminder, tagged [Constructor]. *)
Definition one_constructor : Heap :=
  mkHeap [ mkReminder "call the builder" "Constructor" false ]
         [ [0%nat] ].

(** A client that takes the list from the accessor of the second copy of
    the handler, pushes a reminder on it, and asks for [size()]. *)
Definition push_on_reminders' (this : Part000.t) (x : loc) : M Z :=
  list <- Part000.reminders this ;;
  array_push list x ;;;
  Part000.size this.

(** The same client of the handler of src/RemindersHandler.ts. *)
Definition push_on_reminders (this : RemindersHandler.t) (x : loc) : M Z :=
  list <- RemindersHandler.reminders this ;;
  array_push list x ;;;
  RemindersHandler.size this.

(** ** Compositions of operations *)

(** [handler.modifyReminder(index, d)] followed by reading the description
    back through [handler.getReminder(index)]. *)
Definition modify_then_read (this : RemindersHandler.t) (index : Z)
           (description : string) : M string :=
  RemindersHandler.modifyReminder this index description ;;;
  r <- RemindersHandler.getReminder this index ;;
  on_object r Reminder.get_description.

(** [handler.getReminder(index).description = d] *)
Definition modify_through_reference (this : RemindersHandler.t) (index : Z)
           (description : string) : M unit :=
  r <- RemindersHandler.getReminder this index ;;
  on_object r (fun r => Reminder.set_description r description).

(** Two handlers; a reminder is added to the first; both sizes are read. *)
Definition two_handlers (description tag : string) : M (Z * Z) :=
  first <- RemindersHandler.constructor ;;
  second <- RemindersHandler.constructor ;;
  RemindersHandler.addReminder first description tag ;;;
  n1 <- RemindersHandler.size first ;;
  n2 <- RemindersHandler.size second ;;
  ret (n1, n2).

(** The pure counterpart of the tag callback of the second copy's
    [search]: the tag as it is against the keyword as it is. *)
Definition tagEquals (h : Heap) (keyword : string) (l : loc) : bool :=
  String.eqb (tagOf h l) keyword.

(** What the loop of the second copy's [groupByTag] leaves under [key]:
    the reminders of [xs] tagged [key], without the first of them. *)
Definition groupingOf' (h : Heap) (xs : list loc) (key : string)
  : option (list loc) :=
  match List.filter (fun l => tagEquals h key l) xs with
  | [] => None
  | _ :: ms => Some ms
  end.

(** A client writing to the array [a] itself. *)
Definition client_writes (a : loc) (c : Call) : bool :=
  match c with
  | ArrayPush b _ | ArrayPop b => Nat.eqb a b
  | _ => false
  end.

(** [grown a xs0 h]: in [h] the array [a] holds a sequence of distinct
    live reminders that starts with [xs0]. *)
Definition grown (a : loc) (xs0 : list loc) (h : Heap) : Prop :=
  exists xs, holds h a xs /\ xs0 `prefix_of` xs.

(** [preserves a xs0 m]: [m] keeps [grown a xs0], whether it returns or
    throws. *)
Definition preserves {A} (a : loc) (xs0 : list loc) (m : M A) : Prop :=
  hoare (grown a xs0) m (fun _ => grown a xs0) (fun _ => grown a xs0).

(** ** Which operations write which field *)

(** The calls that assign a description: the setter, and [modifyReminder]
    of src/RemindersHandler.ts (the one of the second copy only throws). *)
Definition writes_description (c : Call) : bool :=
  match c with
  | SetDescription _ _ | ModifyReminder _ _ _ => true
  | _ => false
  end.

(** The calls that assign a tag: the setter. *)
Definition writes_tag (c : Call) : bool :=
  match c with
  | SetTag _ _ => true
  | _ => false
  end.

(** A view [f] of a reminder that does not depend on its description,
    respectively on its tag. *)
Definition ignores_description {X} (f : ReminderObj -> X) : Prop :=
  forall r d, f (mkReminder d (_tag r) (_isCompleted r)) = f r.

Definition ignores_tag {X} (f : ReminderObj -> X) : Prop :=
  forall r t, f (mkReminder (_description r) t (_isCompleted r)) = f r.

(** [kept f h0 h]: every reminder of [h0] is still a reminder of [h], with
    the same view [f]. *)
Definition kept {X} (f : ReminderObj -> X) (h0 h : Heap) : Prop :=
  forall l r0, reminderObjs h0 !! l = Some r0 ->
    exists r, reminderObjs h !! l = Some r /\ f r = f r0.

Definition keeps_field {X A} (f : ReminderObj -> X) (h0 : Heap) (m : M A)
  : Prop :=
  hoare (kept f h0) m (fun _ => kept f h0) (fun _ => kept f h0).
(** * Properties *)

(** ** The monad and the string primitives *)

Lemma bind_ok {A B} (m : M A) (k : A -> M B) h a h' :
  m h = (inr a, h') -> bind m k h = k a h'.
Proof. intros E. unfold bind. now rewrite E. Qed.

Lemma bind_err {A B} (m : M A) (k : A -> M B) h e h' :
  m h = (inl e, h') -> bind m k h = (inl e, h').
Proof. intros E. unfold bind. now rewrite E. Qed.

Lemma array_read_ok h a xs :
  arrays h !! a = Some xs -> array_read a h = (inr xs, h).
Proof. intros E. unfold array_read. now rewrite E. Qed.

Lemma obj_read_ok h l r :
  reminderObjs h !! l = Some r -> obj_read l h = (inr r, h).
Proof. intros E. unfold obj_read. now rewrite E. Qed.

Lemma heap_eta h : mkHeap (reminderObjs h) (arrays h) = h.
Proof. now destruct h. Qed.

(** A [filter] whose callback only reads the heap is the pure filter. *)
Lemma filterM_pure (p : loc -> M bool) (f : loc -> bool) h xs :
  (forall x, x ∈ xs -> p x h = (inr (f x), h)) ->
  filterM p xs h = (inr (List.filter f xs), h).
Proof.
  induction xs as [|x xs IH]; intros Hp; simpl.
  - reflexivity.
  - rewrite (bind_ok _ _ _ _ _ (Hp x ltac:(left))).
    rewrite (bind_ok _ _ h (List.filter f xs) h).
    + unfold ret. now destruct (f x).
    + apply IH. intros y Hy. apply Hp. now right.
Qed.

Lemma startsWith_spec s p :
  startsWith s p = true <-> exists rest, s = (p ++ rest)%string.
Proof.
  revert s. induction p as [|c p IH]; intros s; simpl.
  - split; [intros _; now exists s | intros _; now destruct s].
  - destruct s as [|d s]; simpl.
    + split; [discriminate | intros [rest E]; discriminate].
    + destruct (Ascii.eqb_spec c d) as [->|Hne].
      * rewrite IH. split; intros [rest E]; exists rest.
        -- now rewrite E.
        -- now injection E.
      * split; [discriminate|]. intros [rest E]. injection E. congruence.
Qed.

(** [includes s k] holds exactly when [k] is a substring of [s]. *)
Lemma includes_spec s k :
  includes s k = true <->
  exists before after, s = (before ++ k ++ after)%string.
Proof.
  induction s as [|d s IH]; cbn [includes].
  - rewrite orb_false_r, startsWith_spec. split.
    + intros [rest E]. now exists EmptyString, rest.
    + intros [[|c before] [after E]]; [now exists after | discriminate].
  - rewrite orb_true_iff, IH, startsWith_spec. split.
    + intros [[rest E] | (before & after & E)].
      * now exists EmptyString, rest.
      * exists (String d before), after. simpl. now rewrite E.
    + intros ([|c before] & after & E).
      * left. now exists after.
      * right. exists before, after. simpl in E. now injection E.
Qed.

Lemma get_tag_ok h l :
  is_Some (reminderObjs h !! l) ->
  Reminder.get_tag l h = (inr (tagOf h l), h).
Proof.
  intros [r E]. unfold Reminder.get_tag, tagOf.
  rewrite (bind_ok _ _ _ _ _ (obj_read_ok _ _ _ E)). now rewrite E.
Qed.

Lemma get_description_ok h l :
  is_Some (reminderObjs h !! l) ->
  Reminder.get_description l h = (inr (descriptionOf h l), h).
Proof.
  intros [r E]. unfold Reminder.get_description, descriptionOf.
  rewrite (bind_ok _ _ _ _ _ (obj_read_ok _ _ _ E)). now rewrite E.
Qed.

(** ** size and isIndexValid *)

Lemma inRange_iff xs index :
  inRange xs index = true <-> (0 <= index < Z.of_nat (length xs))%Z.
Proof. unfold inRange. rewrite andb_true_iff, Z.leb_le, Z.ltb_lt. tauto. Qed.

Lemma inRange_lookup xs index :
  inRange xs index = true -> is_Some (xs !! Z.to_nat index).
Proof.
  intros Hr%inRange_iff. apply lookup_lt_is_Some. lia.
Qed.

Section HandlerBasics.
Variables (h : Heap) (a : loc) (xs : list loc).
Hypothesis Harr : arrays h !! a = Some xs.

Lemma array_length_ok :
  array_length a h = (inr (Z.of_nat (length xs)), h).
Proof.
  unfold array_length. now rewrite (bind_ok _ _ _ _ _ (array_read_ok _ _ _ Harr)).
Qed.

Lemma array_get_ok index :
  array_get a index h
  = (inr (if (index <? 0)%Z then None else xs !! Z.to_nat index), h).
Proof.
  unfold array_get. now rewrite (bind_ok _ _ _ _ _ (array_read_ok _ _ _ Harr)).
Qed.

Lemma array_push_ok x :
  array_push a x h
  = (inr tt, mkHeap (reminderObjs h) (<[a := xs ++ [x]]> (arrays h))).
Proof.
  unfold array_push. now rewrite (bind_ok _ _ _ _ _ (array_read_ok _ _ _ Harr)).
Qed.

Lemma array_pop_ok :
  array_pop a h
  = (inr (last xs),
     mkHeap (reminderObjs h) (<[a := removelast xs]> (arrays h))).
Proof.
  unfold array_pop. now rewrite (bind_ok _ _ _ _ _ (array_read_ok _ _ _ Harr)).
Qed.

Lemma size_ok :
  RemindersHandler.size (RemindersHandler.mk a) h
  = (inr (Z.of_nat (length xs)), h).
Proof. apply array_length_ok. Qed.

Lemma size'_ok tag :
  Part000.size (Part000.mk a tag) h = (inr (Z.of_nat (length xs)), h).
Proof. apply array_length_ok. Qed.

(** The two tests of [isIndexValid] amount to the range check. *)
Lemma isIndexValid_tests index :
  (if (Z.of_nat (length xs) =? 0)%Z then false
   else if ((index <? 0)%Z || (index + 1 >? Z.of_nat (length xs))%Z)%bool
        then false else true)
  = inRange xs index.
Proof.
  unfold inRange.
  destruct (Z.eqb_spec (Z.of_nat (length xs)) 0);
    destruct (Z.ltb_spec index 0); destruct (Z.leb_spec 0 index);
    destruct (Z.ltb_spec index (Z.of_nat (length xs)));
    rewrite ?Z.gtb_ltb; try destruct (Z.ltb_spec (Z.of_nat (length xs)) (index + 1));
    simpl; try reflexivity; lia.
Qed.

Lemma isIndexValid_ok index :
  RemindersHandler.isIndexValid (RemindersHandler.mk a) index h
  = (inr (inRange xs index), h).
Proof.
  unfold RemindersHandler.isIndexValid.
  rewrite (bind_ok _ _ _ _ _ size_ok).
  rewrite <- isIndexValid_tests.
  destruct (Z.of_nat (length xs) =? 0)%Z; [reflexivity|].
  rewrite (bind_ok _ _ _ _ _ size_ok).
  now destruct ((index <? 0)%Z || (index + 1 >? Z.of_nat (length xs))%Z)%bool.
Qed.

Lemma isIndexValid'_ok tag index :
  Part000.isIndexValid (Part000.mk a tag) index h
  = (inr (inRange xs index), h).
Proof.
  unfold Part000.isIndexValid.
  rewrite (bind_ok _ _ _ _ _ (size'_ok tag)).
  rewrite <- isIndexValid_tests.
  destruct (Z.of_nat (length xs) =? 0)%Z; [reflexivity|].
  rewrite (bind_ok _ _ _ _ _ (size'_ok tag)).
  now destruct ((index <? 0)%Z || (index + 1 >? Z.of_nat (length xs))%Z)%bool.
Qed.

Lemma addReminder_ok description tag :
  RemindersHandler.addReminder (RemindersHandler.mk a) description tag h
  = (inr tt, added h a xs description tag).
Proof.
  unfold RemindersHandler.addReminder, Reminder.constructor.
  erewrite bind_ok by reflexivity.
  unfold array_push. erewrite bind_ok by (apply array_read_ok; exact Harr).
  reflexivity.
Qed.

Lemma addReminder'_ok ptag description tag :
  Part000.addReminder (Part000.mk a ptag) description tag h
  = (inr tt, added h a xs description tag).
Proof.
  unfold Part000.addReminder, Part000.reminders, Reminder.constructor.
  erewrite bind_ok by reflexivity.
  erewrite bind_ok by reflexivity.
  unfold array_push. erewrite bind_ok by (apply array_read_ok; exact Harr).
  reflexivity.
Qed.

Lemma added_array description tag :
  arrays (added h a xs description tag) !! a
  = Some (xs ++ [length (reminderObjs h)]).
Proof.
  unfold added. simpl. apply list_lookup_insert_eq.
  now apply lookup_lt_Some in Harr.
Qed.

End HandlerBasics.

Lemma array_new_ok h xs :
  array_new xs h
  = (inr (length (arrays h)), mkHeap (reminderObjs h) (arrays h ++ [xs])).
Proof. reflexivity. Qed.

Lemma lookup_new_array h xs :
  arrays (mkHeap (reminderObjs h) (arrays h ++ [xs])) !! length (arrays h)
  = Some xs.
Proof. simpl. now apply list_lookup_middle. Qed.

Lemma addReminders_ok args : forall h a xs,
  arrays h !! a = Some xs ->
  exists h' ys,
    addReminders (RemindersHandler.mk a) args h = (inr tt, h') /\
    arrays h' !! a = Some ys /\
    length ys = (length xs + length args)%nat.
Proof.
  induction args as [|[d t] args IH]; intros h a xs Harr; simpl.
  - exists h, xs. repeat split; [assumption | lia].
  - destruct (IH _ _ _ (added_array h a xs Harr d t)) as (h' & ys & E & Hys & Hlen).
    exists h', ys. rewrite (bind_ok _ _ _ _ _ (addReminder_ok h a xs Harr d t)).
    repeat split; [assumption.. |]. rewrite Hlen, length_app. simpl. lia.
Qed.

Lemma addReminders'_ok ptag args : forall h a xs,
  arrays h !! a = Some xs ->
  exists h' ys,
    addReminders' (Part000.mk a ptag) args h = (inr tt, h') /\
    arrays h' !! a = Some ys /\
    length ys = (length xs + length args)%nat.
Proof.
  induction args as [|[d t] args IH]; intros h a xs Harr; simpl.
  - exists h, xs. repeat split; [assumption | lia].
  - destruct (IH _ _ _ (added_array h a xs Harr d t)) as (h' & ys & E & Hys & Hlen).
    exists h', ys.
    rewrite (bind_ok _ _ _ _ _ (addReminder'_ok h a xs Harr ptag d t)).
    repeat split; [assumption.. |]. rewrite Hlen, length_app. simpl. lia.
Qed.

(** After [n] calls of [addReminder] on a new handler, [size()] is [n]. *)
Lemma size_after_adds h args :
  exists h',
    (this <- RemindersHandler.constructor ;;
     addReminders this args ;;;
     RemindersHandler.size this) h
    = (inr (Z.of_nat (length args)), h').
Proof.
  unfold RemindersHandler.constructor.
  destruct (addReminders_ok args _ _ _ (lookup_new_array h []))
    as (h' & ys & E & Hys & Hlen).
  exists h'.
  erewrite bind_ok; [| erewrite bind_ok by apply array_new_ok; reflexivity].
  erewrite bind_ok by exact E.
  rewrite (size_ok _ _ _ Hys). now rewrite Hlen.
Qed.

Lemma size'_after_adds h ptag args :
  exists h',
    (this <- Part000.constructor ptag ;;
     addReminders' this args ;;;
     Part000.size this) h
    = (inr (Z.of_nat (length args)), h').
Proof.
  unfold Part000.constructor.
  destruct (addReminders'_ok ptag args _ _ _ (lookup_new_array h []))
    as (h' & ys & E & Hys & Hlen).
  exists h'.
  erewrite bind_ok; [| erewrite bind_ok by apply array_new_ok; reflexivity].
  erewrite bind_ok by exact E.
  rewrite (size'_ok _ _ _ Hys). now rewrite Hlen.
Qed.

(** C6: for every handler state and every integer [index], negative or
    equal to [size()] included, [isIndexValid(index)] returns [true]
    exactly when [0 <= index < size()], and it leaves the heap as it was.
    Both copies of the handler agree on it. *)
Theorem isIndexValid_iff_in_range
        (h : Heap) (a : loc) (xs : list loc) (index : Z) (ptag : string) :
  arrays h !! a = Some xs ->
  exists (n : Z) (b : bool),
    RemindersHandler.size (RemindersHandler.mk a) h = (inr n, h) /\
    RemindersHandler.isIndexValid (RemindersHandler.mk a) index h
    = (inr b, h) /\
    Part000.size (Part000.mk a ptag) h = (inr n, h) /\
    Part000.isIndexValid (Part000.mk a ptag) index h = (inr b, h) /\
    n = Z.of_nat (length xs) /\
    (b = true <-> (0 <= index < n)%Z).
Proof.
  intros Harr. exists (Z.of_nat (length xs)), (inRange xs index).
  split; [now apply size_ok|].
  split; [now apply isIndexValid_ok|].
  split; [now apply size'_ok|].
  split; [now apply isIndexValid'_ok|].
  split; [reflexivity | apply inRange_iff].
Qed.

Lemma isIndexValid_iff_in_range_witness :
  exists (n : Z) (b : bool),
    RemindersHandler.size (RemindersHandler.mk 0) two_reminders
    = (inr n, two_reminders) /\
    RemindersHandler.isIndexValid (RemindersHandler.mk 0) 2 two_reminders
    = (inr b, two_reminders) /\
    Part000.size (Part000.mk 0 "") two_reminders = (inr n, two_reminders) /\
    Part000.isIndexValid (Part000.mk 0 "") 2 two_reminders
    = (inr b, two_reminders) /\
    n = Z.of_nat (length [0%nat; 1%nat]) /\
    (b = true <-> (0 <= 2 < n)%Z).
Proof.
  apply (isIndexValid_iff_in_range two_reminders 0 [0; 1]%nat 2 "").
  reflexivity.
Defined.

(** C7: for every handler state, description and tag (empty strings
    included), [addReminder(description, tag)] succeeds, appends a new
    reminder with that description, that tag and [isCompleted = false] at
    the end of the sequence, and [size()] grows by exactly one; after [n]
    calls on a new handler [size()] is [n].  Both copies of the handler
    agree on it. *)
Theorem addReminder_appends
        (h : Heap) (a : loc) (xs : list loc) (description tag ptag : string)
        (args : list (string * string)) :
  arrays h !! a = Some xs ->
  let r := length (reminderObjs h) in
  let h' := added h a xs description tag in
  RemindersHandler.addReminder (RemindersHandler.mk a) description tag h
  = (inr tt, h') /\
  Part000.addReminder (Part000.mk a ptag) description tag h = (inr tt, h') /\
  reminderObjs h' !! r = Some (mkReminder description tag false) /\
  (forall l, (l < r)%nat -> reminderObjs h' !! l = reminderObjs h !! l) /\
  arrays h' !! a = Some (xs ++ [r]) /\
  RemindersHandler.size (RemindersHandler.mk a) h
  = (inr (Z.of_nat (length xs)), h) /\
  RemindersHandler.size (RemindersHandler.mk a) h'
  = (inr (Z.of_nat (length xs) + 1)%Z, h') /\
  (exists h1,
      (this <- RemindersHandler.constructor ;;
       addReminders this args ;;;
       RemindersHandler.size this) h
      = (inr (Z.of_nat (length args)), h1)) /\
  (exists h2,
      (this <- Part000.constructor ptag ;;
       addReminders' this args ;;;
       Part000.size this) h
      = (inr (Z.of_nat (length args)), h2)).
Proof.
  intros Harr r h'. subst r h'.
  split; [now apply addReminder_ok|].
  split; [now apply addReminder'_ok|].
  split; [simpl; now apply list_lookup_middle|].
  split; [intros l Hl; simpl; now apply lookup_app_l|].
  pose proof (added_array h a xs Harr description tag) as Hnew.
  split; [exact Hnew|].
  split; [now apply size_ok|].
  split.
  - rewrite (size_ok _ _ _ Hnew), length_app. simpl.
    do 2 f_equal. lia.
  - split; [apply size_after_adds | apply size'_after_adds].
Qed.

Lemma addReminder_appends_witness :
  RemindersHandler.addReminder (RemindersHandler.mk 0) "" "" two_reminders
  = (inr tt, added two_reminders 0 [0; 1]%nat "" "") /\
  RemindersHandler.size (RemindersHandler.mk 0)
                        (added two_reminders 0 [0; 1]%nat "" "")
  = (inr 3%Z, added two_reminders 0 [0; 1]%nat "" "").
Proof.
  pose proof (addReminder_appends two_reminders 0 [0; 1]%nat "" "" "" []
                                  eq_refl) as H.
  simpl in H. destruct H as (H1 & _ & _ & _ & _ & _ & H2 & _).
  split; [exact H1 | exact H2].
Defined.

(** ** Hoare rules and the completion invariant *)

Lemma hoare_ret {A} (P : Heap -> Prop) (a : A) Q E :
  (forall h, P h -> Q a h) -> hoare P (ret a) Q E.
Proof. intros HQ h HP. now apply HQ. Qed.

Lemma hoare_throw {A} (P : Heap -> Prop) e (Q : A -> Heap -> Prop) E :
  (forall h, P h -> E e h) -> hoare P (throw e) Q E.
Proof. intros HE h HP. now apply HE. Qed.

Lemma hoare_bind {A B} P (m : M A) (k : A -> M B) R Q E :
  hoare P m R E -> (forall a, hoare (R a) (k a) Q E) ->
  hoare P (bind m k) Q E.
Proof.
  intros Hm Hk h HP. specialize (Hm h HP). unfold bind.
  destruct (m h) as [[e|a] h']; [exact Hm | now apply Hk].
Qed.

Lemma keeps_ret {A} (a : A) (phi : A -> Prop) : phi a -> keeps (ret a) phi.
Proof. intros Ha. apply hoare_ret. now split. Qed.

Lemma keeps_throw {A} e (phi : A -> Prop) : keeps (throw e) phi.
Proof. now apply hoare_throw. Qed.

Lemma keeps_bind {A B} (m : M A) (k : A -> M B) phi psi :
  keeps m phi -> (forall a, phi a -> keeps (k a) psi) ->
  keeps (bind m k) psi.
Proof.
  intros Hm Hk. eapply hoare_bind; [exact Hm|].
  intros a h [HI Ha]. now apply Hk.
Qed.

Lemma keeps_void {A} (m : M A) phi :
  keeps m phi -> keeps (void m) (fun _ => True).
Proof.
  intros Hm. unfold void. eapply keeps_bind; [exact Hm|].
  intros a _. now apply keeps_ret.
Qed.

Lemma keeps_obj_new r :
  _isCompleted r = false -> keeps (obj_new r) (fun _ => True).
Proof.
  intros Hr h HI. simpl. split; [|exact I].
  unfold all_incomplete. simpl. apply Forall_app. split; [exact HI|].
  now constructor.
Qed.

Lemma keeps_obj_read l :
  keeps (obj_read l) (fun r => _isCompleted r = false).
Proof.
  intros h HI. unfold obj_read.
  destruct (reminderObjs h !! l) as [r|] eqn:E; [|exact HI].
  split; [exact HI|].
  unfold all_incomplete in HI. rewrite Forall_lookup in HI. eauto.
Qed.

Lemma keeps_obj_write l r :
  _isCompleted r = false -> keeps (obj_write l r) (fun _ => True).
Proof.
  intros Hr h HI. simpl. split; [|exact I].
  unfold all_incomplete. simpl. now apply Forall_insert.
Qed.

Lemma keeps_array_new xs : keeps (array_new xs) (fun _ => True).
Proof. intros h HI. simpl. now split. Qed.

Lemma keeps_array_read a : keeps (array_read a) (fun _ => True).
Proof.
  intros h HI. unfold array_read.
  destruct (arrays h !! a); [now split | exact HI].
Qed.

Lemma keeps_array_length a : keeps (array_length a) (fun _ => True).
Proof.
  unfold array_length. eapply keeps_bind; [apply keeps_array_read|].
  intros xs _. now apply keeps_ret.
Qed.

Lemma keeps_array_get a i : keeps (array_get a i) (fun _ => True).
Proof.
  unfold array_get. eapply keeps_bind; [apply keeps_array_read|].
  intros xs _. now apply keeps_ret.
Qed.

Lemma keeps_array_push a x : keeps (array_push a x) (fun _ => True).
Proof.
  unfold array_push. eapply keeps_bind; [apply keeps_array_read|].
  intros xs _ h HI. now split.
Qed.

Lemma keeps_array_pop a : keeps (array_pop a) (fun _ => True).
Proof.
  unfold array_pop. eapply keeps_bind; [apply keeps_array_read|].
  intros xs _ h HI. now split.
Qed.

Lemma keeps_on_object {A} v (m : loc -> M A) :
  (forall l, keeps (m l) (fun _ => True)) ->
  keeps (on_object v m) (fun _ => True).
Proof. intros Hm. destruct v; [apply Hm | apply keeps_throw]. Qed.

Lemma keeps_filterM p xs :
  (forall x, keeps (p x) (fun _ => True)) ->
  keeps (filterM p xs) (fun _ => True).
Proof.
  intros Hp. induction xs as [|x xs IH]; simpl.
  - now apply keeps_ret.
  - eapply keeps_bind; [apply Hp|]. intros b _.
    eapply keeps_bind; [apply IH|]. intros rest _. now apply keeps_ret.
Qed.

(** *** class Reminder *)

Lemma keeps_constructor d t b :
  keeps (Reminder.constructor d t b) (fun _ => True).
Proof. now apply keeps_obj_new. Qed.

Lemma keeps_get_description r :
  keeps (Reminder.get_description r) (fun _ => True).
Proof.
  eapply keeps_bind; [apply keeps_obj_read|]. intros; now apply keeps_ret.
Qed.

Lemma keeps_get_tag r : keeps (Reminder.get_tag r) (fun _ => True).
Proof.
  eapply keeps_bind; [apply keeps_obj_read|]. intros; now apply keeps_ret.
Qed.

Lemma keeps_get_isCompleted r :
  keeps (Reminder.get_isCompleted r) (fun v => v = false).
Proof.
  eapply keeps_bind; [apply keeps_obj_read|]. intros; now apply keeps_ret.
Qed.

Lemma keeps_set_description r d :
  keeps (Reminder.set_description r d) (fun _ => True).
Proof.
  eapply keeps_bind; [apply keeps_obj_read|]. intros o Ho.
  now apply keeps_obj_write.
Qed.

Lemma keeps_set_tag r t : keeps (Reminder.set_tag r t) (fun _ => True).
Proof.
  eapply keeps_bind; [apply keeps_obj_read|]. intros o Ho.
  eapply keeps_bind; [now apply keeps_obj_write|]. intros; apply keeps_throw.
Qed.

Lemma keeps_toggleCompletion r :
  keeps (Reminder.toggleCompletion r) (fun _ => True).
Proof.
  eapply keeps_bind; [apply keeps_get_isCompleted|]. intros v ->.
  eapply keeps_bind; [apply keeps_obj_read|]. intros o Ho.
  eapply keeps_bind; [now apply keeps_obj_write|]. intros; apply keeps_throw.
Qed.

(** *** The two handler classes *)

Section Invariant.
Context `{Lowercase}.

Ltac keeps_step :=
  first
    [ apply keeps_throw
    | apply keeps_ret; exact I
    | apply keeps_array_push
    | apply keeps_array_new
    | apply keeps_array_get
    | apply keeps_array_length
    | apply keeps_set_description
    | apply keeps_toggleCompletion
    | apply keeps_constructor
    | apply keeps_on_object; intros
    | apply keeps_filterM; intros
    | eapply keeps_bind;
      [ first [ apply keeps_array_read | apply keeps_array_length
              | apply keeps_array_new | apply keeps_array_get
              | apply keeps_get_tag | apply keeps_get_description
              | apply keeps_constructor | apply keeps_filterM; intros ]
      | intros ] ].

Lemma keeps_isIndexValid this i :
  keeps (RemindersHandler.isIndexValid this i) (fun _ => True).
Proof.
  unfold RemindersHandler.isIndexValid, RemindersHandler.size.
  keeps_step. destruct (_ =? _)%Z; [keeps_step|].
  keeps_step. destruct (_ || _)%bool; keeps_step.
Qed.

Lemma keeps_isIndexValid' this i :
  keeps (Part000.isIndexValid this i) (fun _ => True).
Proof.
  unfold Part000.isIndexValid, Part000.size.
  keeps_step. destruct (_ =? _)%Z; [keeps_step|].
  keeps_step. destruct (_ || _)%bool; keeps_step.
Qed.

Lemma keeps_groupByTag_loop rs : forall g,
  keeps (RemindersHandler.groupByTag_loop rs g) (fun _ => True).
Proof.
  induction rs as [|r rs IH]; intros g; simpl; [keeps_step|].
  keeps_step. apply keeps_bind with (phi := fun _ => True); [|intros; apply IH].
  unfold push_property. destruct (get_property _ _); keeps_step.
Qed.

Lemma keeps_groupByTag_loop' rs : forall g,
  keeps (Part000.groupByTag_loop rs g) (fun _ => True).
Proof.
  induction rs as [|r rs IH]; intros g; simpl; [keeps_step|].
  keeps_step. apply keeps_bind with (phi := fun _ => True); [|intros; apply IH].
  destruct (falsy _); [keeps_step|].
  unfold push_property. destruct (get_property _ _); keeps_step.
Qed.

Lemma keeps_run c : keeps (run c) (fun _ => True).
Proof.
  destruct c; simpl;
    try (apply keeps_void with (phi := fun v => v = false);
         apply keeps_get_isCompleted);
    try (apply keeps_void with (phi := fun _ => True));
    try first
        [ apply keeps_constructor | apply keeps_get_description
        | apply keeps_set_description | apply keeps_get_tag
        | apply keeps_set_tag
        | apply keeps_toggleCompletion | apply keeps_isIndexValid
        | apply keeps_isIndexValid' | apply keeps_array_push
        | apply keeps_array_pop ].
  - (* new RemindersHandler() *)
    unfold RemindersHandler.constructor. repeat keeps_step.
  - unfold RemindersHandler.reminders. repeat keeps_step.
  - unfold RemindersHandler.addReminder. repeat keeps_step.
  - unfold RemindersHandler.getReminder.
    eapply keeps_bind; [apply keeps_isIndexValid|]. intros [] _; keeps_step.
  - unfold RemindersHandler.size. keeps_step.
  - unfold RemindersHandler.modifyReminder.
    eapply keeps_bind; [apply keeps_isIndexValid|].
    intros [] _; simpl; repeat keeps_step.
  - unfold RemindersHandler.toggleCompletion.
    eapply keeps_bind; [apply keeps_isIndexValid|].
    intros [] _; simpl; repeat keeps_step.
  - unfold RemindersHandler.search, RemindersHandler.searchTags,
      RemindersHandler.searchDescriptions.
    eapply keeps_bind; [repeat keeps_step|]. intros results _.
    destruct (_ =? _)%Z; repeat keeps_step.
  - unfold RemindersHandler.groupByTag. keeps_step.
    apply keeps_groupByTag_loop.
  - unfold Part000.constructor. repeat keeps_step.
  - unfold Part000.reminders. keeps_step.
  - unfold Part000.addReminder, Part000.reminders. keeps_step.
    apply keeps_bind with (phi := fun _ => True); [now apply keeps_ret|].
    intros; keeps_step.
  - unfold Part000.getReminder. keeps_step.
  - unfold Part000.size. keeps_step.
  - unfold Part000.modifyReminder. keeps_step.
  - unfold Part000.toggleCompletion. keeps_step.
  - unfold Part000.search. keeps_step.
    eapply keeps_bind; [repeat keeps_step|]. intros tagMatches _.
    destruct (_ >? _)%Z; repeat keeps_step.
  - unfold Part000.groupByTag. keeps_step.
    apply keeps_groupByTag_loop'.
Qed.

Lemma exec_all_incomplete cs : forall h,
  all_incomplete h -> all_incomplete (exec cs h).
Proof.
  induction cs as [|c cs IH]; intros h HI; simpl; [exact HI|].
  apply IH. pose proof (keeps_run c h HI) as Hc.
  destruct (run c h) as [[e|u] h']; simpl; [exact Hc | apply Hc].
Qed.

End Invariant.

(** ** Reminder.toggleCompletion and the tag setter *)

Lemma obj_write_same h l r :
  reminderObjs h !! l = Some r ->
  obj_write l (mkReminder (_description r) (_tag r) (_isCompleted r)) h
  = (inr tt, h).
Proof.
  intros E. unfold obj_write. destruct r as [d t c].
  cbn [_description _tag _isCompleted].
  rewrite (list_insert_id _ _ _ E). now rewrite heap_eta.
Qed.

(** [toggleCompletion()] writes back the flag it has just read and
    throws: the heap is the one it started from. *)
Lemma toggleCompletion_throws h l :
  Reminder.toggleCompletion l h
  = (inl (match reminderObjs h !! l with
          | Some _ => NotYetImplemented
          | None => TypeError
          end), h).
Proof.
  unfold Reminder.toggleCompletion, Reminder.get_isCompleted.
  destruct (reminderObjs h !! l) as [r|] eqn:E.
  - erewrite bind_ok;
      [| erewrite bind_ok by (apply obj_read_ok; exact E); reflexivity].
    erewrite bind_ok by (apply obj_read_ok; exact E).
    erewrite bind_ok by (apply obj_write_same; exact E).
    reflexivity.
  - erewrite bind_err; [reflexivity|].
    erewrite bind_err; [reflexivity|].
    unfold obj_read. now rewrite E.
Qed.

(** [set tag] stores the tag and then throws. *)
Lemma set_tag_throws h l r tag :
  reminderObjs h !! l = Some r ->
  Reminder.set_tag l tag h
  = (inl NotYetImplemented,
     mkHeap (<[l := mkReminder (_description r) tag (_isCompleted r)]>
               (reminderObjs h))
            (arrays h)).
Proof.
  intros E. unfold Reminder.set_tag.
  erewrite bind_ok by (apply obj_read_ok; exact E).
  erewrite bind_ok by reflexivity. reflexivity.
Qed.

Lemma set_description_ok h l r description :
  reminderObjs h !! l = Some r ->
  Reminder.set_description l description h
  = (inr tt,
     mkHeap (<[l := mkReminder description (_tag r) (_isCompleted r)]>
               (reminderObjs h))
            (arrays h)).
Proof.
  intros E. unfold Reminder.set_description.
  erewrite bind_ok by (apply obj_read_ok; exact E). reflexivity.
Qed.

(** C10: in every state that the operations of the system can reach from
    the empty heap, every reminder object has [isCompleted = false]: the
    constructor stores [false] whatever third argument it receives, and
    [Reminder.toggleCompletion] writes back the current flag and throws,
    leaving the heap as it was. *)
Theorem isCompleted_always_false `{Lowercase}
        (cs : list Call) (description tag : string)
        (isCompleted : option bool) (h : Heap) (l : loc) :
  Reminder.constructor description tag isCompleted h
  = (inr (length (reminderObjs h)),
     mkHeap (reminderObjs h ++ [mkReminder description tag false])
            (arrays h)) /\
  Reminder.toggleCompletion l h
  = (inl (match reminderObjs h !! l with
          | Some _ => NotYetImplemented
          | None => TypeError
          end), h) /\
  all_incomplete (exec cs empty_heap) /\
  isCompletedOf (exec cs empty_heap) l <> Some true.
Proof.
  split; [reflexivity|].
  split; [apply toggleCompletion_throws|].
  assert (HI : all_incomplete (exec cs empty_heap))
    by (apply exec_all_incomplete; constructor).
  split; [exact HI|].
  unfold isCompletedOf. unfold all_incomplete in HI.
  rewrite Forall_lookup in HI.
  destruct (reminderObjs (exec cs empty_heap) !! l) as [r|] eqn:E;
    simpl; [|discriminate].
  rewrite (HI _ _ E). discriminate.
Qed.

(** ** getReminder and the InvalidIndex error *)

Lemma never_invalid_ret {A} (a : A) : never_invalid (ret a).
Proof. now apply hoare_ret. Qed.

Lemma never_invalid_throw {A} e :
  e <> InvalidIndex -> never_invalid (@throw A e).
Proof. intros He. now apply hoare_throw. Qed.

Lemma never_invalid_bind {A B} (m : M A) (k : A -> M B) :
  never_invalid m -> (forall a, never_invalid (k a)) ->
  never_invalid (bind m k).
Proof. intros Hm Hk. eapply hoare_bind; [exact Hm | intros a; apply Hk]. Qed.

Lemma never_invalid_void {A} (m : M A) :
  never_invalid m -> never_invalid (void m).
Proof.
  intros Hm. apply never_invalid_bind; [exact Hm|].
  intros; apply never_invalid_ret.
Qed.

Lemma never_invalid_obj_read l : never_invalid (obj_read l).
Proof.
  intros h _. unfold obj_read. now destruct (reminderObjs h !! l).
Qed.

Lemma never_invalid_array_read a : never_invalid (array_read a).
Proof.
  intros h _. unfold array_read. now destruct (arrays h !! a).
Qed.

Ltac quiet_step :=
  first
    [ apply never_invalid_ret
    | apply never_invalid_throw; discriminate
    | apply never_invalid_obj_read
    | apply never_invalid_array_read
    | apply never_invalid_void
    | apply never_invalid_bind; [| intros ?]
    | match goal with
      | |- never_invalid (if ?b then _ else _) => destruct b
      | |- never_invalid (on_object ?v _) => destruct v; simpl
      | |- never_invalid (match get_property ?g ?k with _ => _ end) =>
          destruct (get_property g k)
      end
    | now intros ? _ ].

Lemma never_invalid_filterM p xs :
  (forall x, never_invalid (p x)) -> never_invalid (filterM p xs).
Proof.
  intros Hp. induction xs as [|x xs IH]; simpl; [quiet_step|].
  apply never_invalid_bind; [apply Hp|]. intros b.
  apply never_invalid_bind; [apply IH|]. intros; quiet_step.
Qed.

Section InvalidIndex.
Context `{Lowercase}.

Lemma never_invalid_groupByTag_loop rs : forall g,
  never_invalid (RemindersHandler.groupByTag_loop rs g).
Proof.
  induction rs as [|r rs IH]; intros g; simpl; [quiet_step|].
  unfold Reminder.get_tag, push_property.
  apply never_invalid_bind; [repeat quiet_step|]. intros t.
  apply never_invalid_bind; [repeat quiet_step | intros; apply IH].
Qed.

Lemma never_invalid_groupByTag_loop' rs : forall g,
  never_invalid (Part000.groupByTag_loop rs g).
Proof.
  induction rs as [|r rs IH]; intros g; simpl; [quiet_step|].
  unfold Reminder.get_tag, push_property.
  apply never_invalid_bind; [repeat quiet_step|]. intros t.
  apply never_invalid_bind; [repeat quiet_step | intros; apply IH].
Qed.

(** No operation other than [getReminder] raises InvalidIndex. *)
Lemma only_getReminder_raises c :
  is_getReminder c = false -> never_invalid (run c).
Proof.
  destruct c; simpl; try discriminate; intros _;
    unfold Reminder.constructor, Reminder.get_description,
      Reminder.set_description, Reminder.get_tag, Reminder.set_tag,
      Reminder.get_isCompleted, Reminder.toggleCompletion,
      RemindersHandler.constructor, RemindersHandler.reminders,
      RemindersHandler.addReminder, RemindersHandler.modifyReminder,
      RemindersHandler.toggleCompletion, RemindersHandler.search,
      RemindersHandler.searchTags, RemindersHandler.searchDescriptions,
      RemindersHandler.groupByTag, RemindersHandler.isIndexValid,
      RemindersHandler.size,
      Part000.constructor, Part000.reminders, Part000.addReminder,
      Part000.modifyReminder, Part000.toggleCompletion, Part000.search,
      Part000.groupByTag, Part000.isIndexValid, Part000.size,
      Reminder.constructor, Reminder.set_description,
      Reminder.toggleCompletion, Reminder.get_isCompleted,
      array_length, array_get, array_push, array_pop, array_new,
      obj_new, obj_write;
    repeat first
           [ apply never_invalid_groupByTag_loop
           | apply never_invalid_groupByTag_loop'
           | apply never_invalid_filterM; intros ?;
             unfold Reminder.get_tag, Reminder.get_description
           | quiet_step ].
Qed.

End InvalidIndex.



(** ** modifyReminder *)


Lemma two_reminders_holds : holds two_reminders 0 [0; 1]%nat.
Proof.
  split; [reflexivity|]. split.
  - repeat constructor; eexists; reflexivity.
  - apply NoDup_ListNoDup. repeat constructor; simpl; intuition lia.
Qed.


(** ** The reminders accessor *)

(** In src/RemindersHandler.ts, the accessor returns a new array with the
    elements of the stored one: pushing on it or popping from it changes
    neither the stored sequence nor [size()], and its elements are the
    stored reminder objects themselves. *)
Theorem reminders_is_shallow_copy
        (h : Heap) (a : loc) (xs : list loc) (x : loc) :
  arrays h !! a = Some xs ->
  let copy := length (arrays h) in
  let h1 := mkHeap (reminderObjs h) (arrays h ++ [xs]) in
  RemindersHandler.reminders (RemindersHandler.mk a) h = (inr copy, h1) /\
  copy <> a /\
  arrays h1 !! copy = Some xs /\
  arrays h1 !! a = Some xs /\
  reminderObjs h1 = reminderObjs h /\
  (exists h2,
      array_push copy x h1 = (inr tt, h2) /\
      arrays h2 !! copy = Some (xs ++ [x]) /\
      arrays h2 !! a = Some xs /\
      RemindersHandler.size (RemindersHandler.mk a) h2
      = (inr (Z.of_nat (length xs)), h2)) /\
  (exists h3,
      array_pop copy h1 = (inr (last xs), h3) /\
      arrays h3 !! copy = Some (removelast xs) /\
      arrays h3 !! a = Some xs /\
      RemindersHandler.size (RemindersHandler.mk a) h3
      = (inr (Z.of_nat (length xs)), h3)).
Proof.
  intros Harr copy h1. subst copy h1.
  pose proof (lookup_lt_Some _ _ _ Harr) as Hlt.
  assert (Hne : length (arrays h) <> a) by lia.
  pose proof (lookup_new_array h xs) as Hcopy.
  assert (Ha1 : arrays (mkHeap (reminderObjs h) (arrays h ++ [xs])) !! a
                = Some xs) by (simpl; now rewrite lookup_app_l).
  split.
  { unfold RemindersHandler.reminders.
    now rewrite (bind_ok _ _ _ _ _ (array_read_ok _ _ _ Harr)). }
  split; [exact Hne|]. split; [exact Hcopy|]. split; [exact Ha1|].
  split; [reflexivity|].
  assert (Hlen : (length (arrays h) < length (arrays h ++ [xs]))%nat)
    by (rewrite length_app; simpl; lia).
  split; eexists.
  - split; [apply (array_push_ok _ _ _ Hcopy)|]. simpl.
    split; [now apply list_lookup_insert_eq|].
    assert (Ha2 : <[length (arrays h) := xs ++ [x]]> (arrays h ++ [xs]) !! a
                  = Some xs)
      by (rewrite list_lookup_insert_ne by exact Hne; exact Ha1).
    split; [exact Ha2|]. now apply size_ok.
  - split; [apply (array_pop_ok _ _ _ Hcopy)|]. simpl.
    split; [now apply list_lookup_insert_eq|].
    assert (Ha3 : <[length (arrays h) := removelast xs]> (arrays h ++ [xs])
                    !! a = Some xs)
      by (rewrite list_lookup_insert_ne by exact Hne; exact Ha1).
    split; [exact Ha3|]. now apply size_ok.
Qed.

Lemma reminders_is_shallow_copy_witness :
  RemindersHandler.reminders (RemindersHandler.mk 0) two_reminders
  = (inr 1%nat,
     mkHeap (reminderObjs two_reminders) [ [0; 1]; [0; 1] ]%nat).
Proof.
  destruct (reminders_is_shallow_copy two_reminders 0 [0; 1]%nat 0 eq_refl)
    as (H0 & _).
  exact H0.
Defined.

(** ** search *)

Section Search.
Context `{Lowercase}.

Lemma tagMatches_iff h keyword l :
  tagMatches h keyword l = true <->
  toLowerCase (tagOf h l) = toLowerCase keyword.
Proof. apply String.eqb_eq. Qed.

Lemma descriptionMatches_iff h keyword l :
  descriptionMatches h keyword l = true <->
  exists before after,
    toLowerCase (descriptionOf h l)
    = (before ++ toLowerCase keyword ++ after)%string.
Proof. apply includes_spec. Qed.

Lemma searchTags_ok h a xs keyword :
  holds h a xs ->
  RemindersHandler.searchTags (RemindersHandler.mk a)
                              (toLowerCase keyword) h
  = (inr (List.filter (tagMatches h keyword) xs), h).
Proof.
  intros (Harr & Hlive & _). unfold RemindersHandler.searchTags.
  rewrite (bind_ok _ _ _ _ _ (array_read_ok _ _ _ Harr)).
  apply filterM_pure. intros x Hx.
  rewrite Forall_forall in Hlive.
  now rewrite (bind_ok _ _ _ _ _ (get_tag_ok _ _ (Hlive _ Hx))).
Qed.

Lemma searchDescriptions_ok h a xs keyword :
  holds h a xs ->
  RemindersHandler.searchDescriptions (RemindersHandler.mk a)
                                      (toLowerCase keyword) h
  = (inr (List.filter (descriptionMatches h keyword) xs), h).
Proof.
  intros (Harr & Hlive & _). unfold RemindersHandler.searchDescriptions.
  rewrite (bind_ok _ _ _ _ _ (array_read_ok _ _ _ Harr)).
  apply filterM_pure. intros x Hx.
  rewrite Forall_forall in Hlive.
  now rewrite (bind_ok _ _ _ _ _ (get_description_ok _ _ (Hlive _ Hx))).
Qed.

(** In src/RemindersHandler.ts, [search(keyword)] returns the reminders
    whose lowercased tag equals the lowercased keyword, in the order of
    the sequence; only when there is none does it return those whose
    lowercased description contains the lowercased keyword.  The heap
    is left as it was. *)
Theorem search_two_phase
        (h : Heap) (a : loc) (xs : list loc) (keyword : string) :
  holds h a xs ->
  let byTag := List.filter (tagMatches h keyword) xs in
  let byDescription := List.filter (descriptionMatches h keyword) xs in
  RemindersHandler.search (RemindersHandler.mk a) keyword h
  = (inr (match byTag with [] => byDescription | _ => byTag end), h) /\
  (forall l, l ∈ byTag <->
             l ∈ xs /\ toLowerCase (tagOf h l) = toLowerCase keyword) /\
  (forall l, l ∈ byDescription <->
             l ∈ xs /\
             exists before after,
               toLowerCase (descriptionOf h l)
               = (before ++ toLowerCase keyword ++ after)%string).
Proof.
  intros Hh byTag byDescription. subst byTag byDescription.
  split; [|split].
  - unfold RemindersHandler.search.
    rewrite (bind_ok _ _ _ _ _ (searchTags_ok _ _ _ keyword Hh)).
    destruct (List.filter (tagMatches h keyword) xs) as [|l ls]; simpl.
    + now apply searchDescriptions_ok.
    + reflexivity.
  - intros l. rewrite !list_elem_of_In, filter_In, tagMatches_iff.
    reflexivity.
  - intros l. rewrite !list_elem_of_In, filter_In, descriptionMatches_iff.
    reflexivity.
Qed.

End Search.

Lemma search_two_phase_witness :
  @RemindersHandler.search ascii_toLowerCase (RemindersHandler.mk 0)
                           "GROCERY" two_reminders
  = (inr [0; 1]%nat, two_reminders) /\
  @RemindersHandler.search ascii_toLowerCase (RemindersHandler.mk 0)
                           "milk" two_reminders
  = (inr [0%nat], two_reminders).
Proof.
  split.
  - exact (proj1 (@search_two_phase ascii_toLowerCase two_reminders 0
                                    [0; 1]%nat "GROCERY"
                                    two_reminders_holds)).
  - exact (proj1 (@search_two_phase ascii_toLowerCase two_reminders 0
                                    [0; 1]%nat "milk"
                                    two_reminders_holds)).
Defined.

(** ** groupByTag *)

Section GroupByTag.
Context `{Lowercase}.

Lemma membersOf_snoc h pre r key :
  membersOf h (pre ++ [r]) key
  = membersOf h pre key
    ++ (if String.eqb (toLowerCase (tagOf h r)) key then [r] else []).
Proof. unfold membersOf. now rewrite List.filter_app. Qed.

Lemma groupingOf_snoc_same h pre r :
  groupingOf h (pre ++ [r]) (toLowerCase (tagOf h r))
  = Some (membersOf h pre (toLowerCase (tagOf h r)) ++ [r]).
Proof.
  unfold groupingOf. rewrite membersOf_snoc, String.eqb_refl.
  now destruct (membersOf h pre (toLowerCase (tagOf h r))).
Qed.

Lemma groupingOf_snoc_other h pre r key :
  toLowerCase (tagOf h r) <> key ->
  groupingOf h (pre ++ [r]) key = groupingOf h pre key.
Proof.
  intros Hne. unfold groupingOf. rewrite membersOf_snoc.
  apply String.eqb_neq in Hne. rewrite Hne. now rewrite app_nil_r.
Qed.

Lemma groupingOf_None h pre key :
  groupingOf h pre key = None -> membersOf h pre key = [].
Proof. unfold groupingOf. now destruct (membersOf h pre key). Qed.

Lemma groupingOf_Some h pre key ms :
  groupingOf h pre key = Some ms -> membersOf h pre key = ms.
Proof.
  unfold groupingOf. destruct (membersOf h pre key); congruence.
Qed.

(** One iteration of the loop on a tag that is not a member of
    [Object.prototype]. *)
Lemma group_step h pre g r :
  (forall key, g !! key = groupingOf h pre key) ->
  toLowerCase (tagOf h r) ∉ Object_prototype_keys ->
  exists g',
    push_property
      (if falsy (get_property g (toLowerCase (tagOf h r)))
       then <[toLowerCase (tagOf h r) := []]> g else g)
      (toLowerCase (tagOf h r)) r h
    = (inr g', h) /\
    forall key, g' !! key = groupingOf h (pre ++ [r]) key.
Proof.
  intros Hg Hproto. set (tag := toLowerCase (tagOf h r)) in *.
  assert (Hspec : forall ms (g0 : gmap string (list loc)),
             (forall key, key <> tag -> g0 !! key = g !! key) ->
             ms = membersOf h pre tag ->
             forall key, <[tag := ms ++ [r]]> g0 !! key
                         = groupingOf h (pre ++ [r]) key).
  { intros ms g0 Hg0 -> key. destruct (decide (tag = key)) as [<-|Hne].
    - rewrite lookup_insert_eq. symmetry. apply groupingOf_snoc_same.
    - rewrite lookup_insert_ne by exact Hne.
      rewrite groupingOf_snoc_other by exact Hne.
      rewrite Hg0 by congruence. apply Hg. }
  unfold push_property, get_property.
  destruct (g !! tag) as [ms|] eqn:E; simpl.
  - rewrite E. eexists. split; [reflexivity|].
    apply Hspec; [reflexivity|].
    rewrite Hg in E. symmetry. now apply groupingOf_Some.
  - rewrite bool_decide_eq_false_2 by exact Hproto. simpl.
    rewrite lookup_insert_eq. eexists. split; [reflexivity|].
    apply Hspec.
    + intros key Hne. now rewrite lookup_insert_ne by congruence.
    + rewrite Hg in E. symmetry. now apply groupingOf_None.
Qed.

(** One iteration of the loop on a tag that is a member of
    [Object.prototype] and not yet a group. *)
Lemma group_step_inherited h (g : gmap string (list loc)) r :
  g !! toLowerCase (tagOf h r) = None ->
  toLowerCase (tagOf h r) ∈ Object_prototype_keys ->
  push_property
    (if falsy (get_property g (toLowerCase (tagOf h r)))
     then <[toLowerCase (tagOf h r) := []]> g else g)
    (toLowerCase (tagOf h r)) r h
  = (inl TypeError, h).
Proof.
  intros E Hproto. unfold push_property, get_property. rewrite E.
  rewrite bool_decide_eq_true_2 by exact Hproto. simpl. rewrite E.
  reflexivity.
Qed.

Lemma groupByTag_loop_ok h rest : forall pre g,
  (forall key, g !! key = groupingOf h pre key) ->
  Forall (fun l => is_Some (reminderObjs h !! l)) rest ->
  Forall (fun l => toLowerCase (tagOf h l) ∉ Object_prototype_keys) rest ->
  exists g',
    RemindersHandler.groupByTag_loop rest g h = (inr g', h) /\
    forall key, g' !! key = groupingOf h (pre ++ rest) key.
Proof.
  induction rest as [|r rest IH]; intros pre g Hg Hlive Hproto; simpl.
  - exists g. split; [reflexivity|]. now rewrite app_nil_r.
  - inversion Hlive as [|? ? Hr Hlive']; subst.
    inversion Hproto as [|? ? Hp Hproto']; subst.
    rewrite (bind_ok _ _ _ _ _ (get_tag_ok _ _ Hr)).
    destruct (group_step h pre g r Hg Hp) as (g1 & E1 & Hg1).
    rewrite (bind_ok _ _ _ _ _ E1).
    destruct (IH (pre ++ [r]) g1 Hg1 Hlive' Hproto') as (g' & E' & Hg').
    exists g'. split; [exact E'|].
    intros key. rewrite Hg'. now rewrite <- app_assoc.
Qed.

(** As soon as a lowercased tag is a member of [Object.prototype], the
    loop stops with a TypeError. *)
Lemma groupByTag_loop_inherited h rest : forall pre g,
  (forall key, g !! key = groupingOf h pre key) ->
  Forall (fun l => toLowerCase (tagOf h l) ∉ Object_prototype_keys) pre ->
  Forall (fun l => is_Some (reminderObjs h !! l)) rest ->
  Exists (fun l => toLowerCase (tagOf h l) ∈ Object_prototype_keys) rest ->
  RemindersHandler.groupByTag_loop rest g h = (inl TypeError, h).
Proof.
  induction rest as [|r rest IH]; intros pre g Hg Hpre Hlive Hex; simpl.
  - inversion Hex.
  - inversion Hlive as [|? ? Hr Hlive']; subst.
    rewrite (bind_ok _ _ _ _ _ (get_tag_ok _ _ Hr)).
    destruct (decide (toLowerCase (tagOf h r) ∈ Object_prototype_keys))
      as [Hin|Hnin].
    + erewrite bind_err; [reflexivity|].
      apply group_step_inherited; [|exact Hin].
      rewrite Hg. unfold groupingOf, membersOf.
      replace (List.filter _ pre) with (@nil nat); [reflexivity|].
      symmetry. clear Hg. induction pre as [|p pre IHp]; [reflexivity|].
      inversion Hpre as [|? ? Hp Hpre']; subst. simpl.
      destruct (String.eqb_spec (toLowerCase (tagOf h p))
                                (toLowerCase (tagOf h r))) as [Heq|Hne].
      * exfalso. apply Hp. now rewrite Heq.
      * now apply IHp.
    + destruct (group_step h pre g r Hg Hnin) as (g1 & E1 & Hg1).
      rewrite (bind_ok _ _ _ _ _ E1).
      apply (IH (pre ++ [r]) g1 Hg1).
      * apply Forall_app. split; [exact Hpre | now constructor].
      * exact Hlive'.
      * inversion Hex as [? ? Hhd|? ? Htl]; subst; [contradiction|exact Htl].
Qed.

(** In src/RemindersHandler.ts, when no lowercased tag is the name of a
    member of [Object.prototype], [groupByTag()] returns the mapping
    whose keys are exactly the lowercased tags of the stored reminders
    and whose group for a key lists, in the order of the sequence, the
    reminders with that lowercased tag.  When some lowercased tag is
    such a name, it throws a TypeError instead. *)
Theorem groupByTag_spec (h : Heap) (a : loc) (xs : list loc) :
  holds h a xs ->
  (Forall (fun l => toLowerCase (tagOf h l) ∉ Object_prototype_keys) xs ->
   exists g,
     RemindersHandler.groupByTag (RemindersHandler.mk a) h = (inr g, h) /\
     (forall key, g !! key = groupingOf h xs key) /\
     (forall key, is_Some (g !! key) <->
                  exists l, l ∈ xs /\ toLowerCase (tagOf h l) = key) /\
     (forall l, l ∈ xs ->
                exists ms, g !! toLowerCase (tagOf h l) = Some ms /\
                           l ∈ ms)) /\
  (Exists (fun l => toLowerCase (tagOf h l) ∈ Object_prototype_keys) xs ->
   RemindersHandler.groupByTag (RemindersHandler.mk a) h
   = (inl TypeError, h)).
Proof.
  intros (Harr & Hlive & _). unfold RemindersHandler.groupByTag.
  rewrite (bind_ok _ _ _ _ _ (array_read_ok _ _ _ Harr)).
  assert (H0 : forall key,
             (∅ : gmap string (list loc)) !! key = groupingOf h [] key)
    by (intros key; apply lookup_empty).
  split.
  - intros Hproto.
    destruct (groupByTag_loop_ok h xs [] ∅ H0 Hlive Hproto)
      as (g & E & Hg).
    simpl in Hg. exists g. split; [exact E|]. split; [exact Hg|].
    assert (Hmem : forall key l,
               l ∈ membersOf h xs key <->
               l ∈ xs /\ toLowerCase (tagOf h l) = key).
    { intros key l. unfold membersOf.
      rewrite !list_elem_of_In, filter_In, String.eqb_eq. reflexivity. }
    split.
    + intros key. rewrite Hg. unfold groupingOf.
      destruct (membersOf h xs key) as [|m ms] eqn:Em.
      * split; [intros [? ?]; discriminate|].
        intros (l & Hl & Ht). exfalso.
        assert (Hin : l ∈ membersOf h xs key) by now apply Hmem.
        rewrite Em in Hin. inversion Hin.
      * split; [|eauto]. intros _. exists m. apply Hmem.
        rewrite Em. now left.
    + intros l Hl. rewrite Hg. unfold groupingOf.
      assert (Hin : l ∈ membersOf h xs (toLowerCase (tagOf h l)))
        by now apply Hmem.
      destruct (membersOf h xs (toLowerCase (tagOf h l))) as [|m ms];
        [inversion Hin|]. eauto.
  - intros Hex.
    now apply (groupByTag_loop_inherited h xs [] ∅ H0).
Qed.

End GroupByTag.

Lemma groupByTag_spec_witness :
  exists g,
    @RemindersHandler.groupByTag ascii_toLowerCase (RemindersHandler.mk 0)
                                 two_reminders
    = (inr g, two_reminders) /\
    g !! "grocery" = Some [0; 1]%nat.
Proof.
  destruct (@groupByTag_spec ascii_toLowerCase two_reminders 0 [0; 1]%nat
                             two_reminders_holds) as (Hok & _).
  destruct Hok as (g & E & Hg & _).
  - repeat constructor; vm_compute; intros Hin;
      repeat (apply elem_of_cons in Hin as [Hin|Hin]; [discriminate|]);
      inversion Hin.
  - exists g. split; [exact E|]. rewrite Hg. reflexivity.
Defined.

(** ** The handler's toggleCompletion *)


(** ** The example states *)

Lemma setup_two_ok :
  setup_two empty_heap = (inr (RemindersHandler.mk 0), two_reminders) /\
  setup_two' empty_heap = (inr (Part000.mk 0 ""), two_reminders).
Proof. split; reflexivity. Qed.

(** ** Where the code departs from its description *)

(** C1: in the second copy of the handler, [search] compares the tag with
    the keyword as they are.  On the reminders tagged [Grocery] and
    [grocery], [search("grocery")] returns the second one only, and
    [search("GROCERY")] returns none; the handler of
    src/RemindersHandler.ts returns both, both times. *)
Theorem search_part000_compares_tags_exactly :
  @Part000.search ascii_toLowerCase (Part000.mk 0 "") "grocery" two_reminders
  = (inr [1%nat], two_reminders) /\
  @Part000.search ascii_toLowerCase (Part000.mk 0 "") "GROCERY" two_reminders
  = (inr [], two_reminders) /\
  @RemindersHandler.search ascii_toLowerCase (RemindersHandler.mk 0)
                           "grocery" two_reminders
  = (inr [0; 1]%nat, two_reminders) /\
  @RemindersHandler.search ascii_toLowerCase (RemindersHandler.mk 0)
                           "GROCERY" two_reminders
  = (inr [0; 1]%nat, two_reminders).
Proof. repeat split; reflexivity. Qed.

(** C2: on the reminders [a], [b], [c] tagged [Work], [work], [Home], the
    second copy of the handler returns the groups [Work], [work] and
    [Home], all empty: keys are not lowercased and the first reminder of a
    group is never pushed.  The handler of src/RemindersHandler.ts returns
    [work -> [a, b]] and [home -> [c]], but on a reminder tagged
    [Constructor] it throws a TypeError. *)
Theorem groupByTag_departs :
  @Part000.groupByTag (Part000.mk 0 "") work_home
  = (inr (<["Work" := []]> (<["work" := []]> (<["Home" := []]> ∅))),
     work_home) /\
  @RemindersHandler.groupByTag ascii_toLowerCase (RemindersHandler.mk 0)
                               work_home
  = (inr (<["work" := [0; 1]%nat]> (<["home" := [2%nat]]> ∅)), work_home) /\
  @RemindersHandler.groupByTag ascii_toLowerCase (RemindersHandler.mk 0)
                               one_constructor
  = (inl TypeError, one_constructor).
Proof. repeat split; vm_compute; reflexivity. Qed.

(** C3: in the second copy of the handler, [getReminder] throws
    "Not yet implemented" whatever the index, valid ([0]) or not ([5]). *)
Theorem getReminder_part000_not_implemented :
  Part000.isIndexValid (Part000.mk 0 "") 0 two_reminders
  = (inr true, two_reminders) /\
  Part000.getReminder (Part000.mk 0 "") 0 two_reminders
  = (inl NotYetImplemented, two_reminders) /\
  Part000.getReminder (Part000.mk 0 "") 5 two_reminders
  = (inl NotYetImplemented, two_reminders) /\
  RemindersHandler.getReminder (RemindersHandler.mk 0) 0 two_reminders
  = (inr (Some 0%nat), two_reminders) /\
  RemindersHandler.getReminder (RemindersHandler.mk 0) 5 two_reminders
  = (inl InvalidIndex, two_reminders).
Proof. repeat split; reflexivity. Qed.

(** C4: [Reminder.toggleCompletion()] on a reminder that is not completed
    leaves it not completed and throws "Not yet implemented"; so does the
    handler's [toggleCompletion(0)], and the one of the second copy. *)
Theorem toggleCompletion_does_not_flip :
  isCompletedOf two_reminders 0 = Some false /\
  Reminder.toggleCompletion 0 two_reminders
  = (inl NotYetImplemented, two_reminders) /\
  RemindersHandler.toggleCompletion (RemindersHandler.mk 0) 0 two_reminders
  = (inl NotYetImplemented, two_reminders) /\
  Part000.toggleCompletion (Part000.mk 0 "") 0 two_reminders
  = (inl NotYetImplemented, two_reminders).
Proof. repeat split; reflexivity. Qed.

(** C5: in the second copy of the handler, [modifyReminder] throws
    "Not yet implemented" on a valid index ([0]) and on an invalid one
    ([5]); the handler of src/RemindersHandler.ts rewrites the description
    at [0] and ignores the call at [5]. *)
Theorem modifyReminder_part000_not_implemented :
  Part000.modifyReminder (Part000.mk 0 "") 0 "Buy oat milk" two_reminders
  = (inl NotYetImplemented, two_reminders) /\
  Part000.modifyReminder (Part000.mk 0 "") 5 "Buy oat milk" two_reminders
  = (inl NotYetImplemented, two_reminders) /\
  RemindersHandler.modifyReminder (RemindersHandler.mk 0) 0 "Buy oat milk"
                                  two_reminders
  = (inr tt,
     mkHeap [ mkReminder "Buy oat milk" "Grocery" false;
              mkReminder "Buy eggs" "grocery" false ]
            [ [0; 1]%nat ]) /\
  RemindersHandler.modifyReminder (RemindersHandler.mk 0) 5 "Buy oat milk"
                                  two_reminders
  = (inr tt, two_reminders).
Proof. repeat split; reflexivity. Qed.

(** C8: the tag setter stores the new tag and then throws
    "Not yet implemented". *)
Theorem set_tag_throws_after_write :
  Reminder.set_tag 0 "dairy" two_reminders
  = (inl NotYetImplemented,
     mkHeap [ mkReminder "Buy Milk" "dairy" false;
              mkReminder "Buy eggs" "grocery" false ]
            [ [0; 1]%nat ]).
Proof. reflexivity. Qed.

(** C9: the accessor of the second copy of the handler returns the stored
    array itself: after a client pushes on the returned list, [size()] is
    3 instead of 2.  With the handler of src/RemindersHandler.ts it is
    still 2. *)
Theorem reminders_part000_is_the_stored_array :
  Part000.reminders (Part000.mk 0 "") two_reminders
  = (inr 0%nat, two_reminders) /\
  Part000.size (Part000.mk 0 "") two_reminders = (inr 2%Z, two_reminders) /\
  fst (push_on_reminders' (Part000.mk 0 "") 0 two_reminders) = inr 3%Z /\
  fst (push_on_reminders (RemindersHandler.mk 0) 0 two_reminders)
  = inr 2%Z.
Proof. repeat split; reflexivity. Qed.

(** * Further properties of the code *)

(** ** A new handler *)

Lemma inRange_nil index : inRange [] index = false.
Proof.
  destruct (inRange [] index) eqn:E; [|reflexivity].
  apply inRange_iff in E. simpl in E. lia.
Qed.

Lemma holds_new_array h :
  holds (mkHeap (reminderObjs h) (arrays h ++ [[]])) (length (arrays h)) [].
Proof.
  split; [apply lookup_new_array|]. split; constructor.
Qed.

Lemma getReminder_ok h a xs index l :
  arrays h !! a = Some xs ->
  inRange xs index = true ->
  xs !! Z.to_nat index = Some l ->
  RemindersHandler.getReminder (RemindersHandler.mk a) index h
  = (inr (Some l), h).
Proof.
  intros Harr Hr Hl. unfold RemindersHandler.getReminder.
  rewrite (bind_ok _ _ _ _ _ (isIndexValid_ok h a xs Harr index)).
  rewrite Hr. simpl. rewrite (array_get_ok h a xs Harr).
  apply inRange_iff in Hr.
  destruct (Z.ltb_spec index 0); [lia|]. now rewrite Hl.
Qed.

Lemma getReminder_invalid h a xs index :
  arrays h !! a = Some xs ->
  inRange xs index = false ->
  RemindersHandler.getReminder (RemindersHandler.mk a) index h
  = (inl InvalidIndex, h).
Proof.
  intros Harr Hr. unfold RemindersHandler.getReminder.
  rewrite (bind_ok _ _ _ _ _ (isIndexValid_ok h a xs Harr index)).
  now rewrite Hr.
Qed.

Lemma search_ok `{Lowercase} h a xs keyword :
  holds h a xs ->
  RemindersHandler.search (RemindersHandler.mk a) keyword h
  = (inr (match List.filter (tagMatches h keyword) xs with
          | [] => List.filter (descriptionMatches h keyword) xs
          | l :: ls => l :: ls
          end), h).
Proof.
  intros Hh. unfold RemindersHandler.search.
  rewrite (bind_ok _ _ _ _ _ (searchTags_ok _ _ _ keyword Hh)).
  destruct (List.filter (tagMatches h keyword) xs) as [|l ls]; simpl.
  - now apply searchDescriptions_ok.
  - reflexivity.
Qed.

(** A handler that has just been constructed is empty, whatever the heap
    it is created in: [size()] is 0, no index is valid, [getReminder]
    raises InvalidIndex at every index, [modifyReminder] and
    [toggleCompletion] do nothing, [search] finds nothing and
    [groupByTag] returns the empty object. *)
Theorem new_handler_is_empty `{Lowercase}
        (h : Heap) (index : Z) (keyword description : string) :
  let this := RemindersHandler.mk (length (arrays h)) in
  let h0 := mkHeap (reminderObjs h) (arrays h ++ [[]]) in
  RemindersHandler.constructor h = (inr this, h0) /\
  RemindersHandler.size this h0 = (inr 0%Z, h0) /\
  RemindersHandler.isIndexValid this index h0 = (inr false, h0) /\
  RemindersHandler.getReminder this index h0 = (inl InvalidIndex, h0) /\
  RemindersHandler.modifyReminder this index description h0
  = (inr tt, h0) /\
  RemindersHandler.toggleCompletion this index h0 = (inr tt, h0) /\
  RemindersHandler.search this keyword h0 = (inr [], h0) /\
  RemindersHandler.groupByTag this h0 = (inr ∅, h0).
Proof.
  intros this h0. subst this h0.
  pose proof (lookup_new_array h []) as Harr.
  pose proof (holds_new_array h) as Hh.
  pose proof (isIndexValid_ok _ _ _ Harr index) as Hv.
  rewrite inRange_nil in Hv.
  split; [reflexivity|].
  split; [exact (size_ok _ _ _ Harr)|].
  split; [exact Hv|].
  split; [apply (getReminder_invalid _ _ _ _ Harr), inRange_nil|].
  split; [unfold RemindersHandler.modifyReminder;
          now rewrite (bind_ok _ _ _ _ _ Hv)|].
  split; [unfold RemindersHandler.toggleCompletion;
          now rewrite (bind_ok _ _ _ _ _ Hv)|].
  split; [exact (search_ok _ _ _ keyword Hh)|].
  unfold RemindersHandler.groupByTag.
  now rewrite (bind_ok _ _ _ _ _ (array_read_ok _ _ _ Harr)).
Qed.

(** ** addReminder, then getReminder *)

Lemma holds_lt h a xs l :
  holds h a xs -> l ∈ xs -> (l < length (reminderObjs h))%nat.
Proof.
  intros (_ & Hlive & _) Hl. rewrite Forall_forall in Hlive.
  destruct (Hlive _ Hl) as [r Hr]. now apply lookup_lt_Some in Hr.
Qed.

Lemma holds_added h a xs description tag :
  holds h a xs ->
  holds (added h a xs description tag) a (xs ++ [length (reminderObjs h)]).
Proof.
  intros Hh. pose proof Hh as (Harr & Hlive & Hnd).
  split; [now apply added_array|]. split.
  - apply Forall_app. split.
    + eapply Forall_impl; [exact Hlive|]. intros l [r Hr]. exists r.
      simpl. now apply lookup_app_l_Some.
    + constructor; [|constructor]. eexists. simpl.
      now apply list_lookup_middle.
  - apply NoDup_app. split; [exact Hnd|]. split.
    + intros l Hl Hin. apply list_elem_of_singleton in Hin. subst l.
      pose proof (holds_lt _ _ _ _ Hh Hl). lia.
    + apply NoDup_singleton.
Qed.

(** After [addReminder(description, tag)], [getReminder] at the old
    [size()] returns the new reminder, which reads back as the given
    description and tag and is not completed; every index that was valid
    before still returns the object it returned before. *)
Theorem getReminder_after_addReminder
        (h : Heap) (a : loc) (xs : list loc) (description tag : string)
        (index : Z) :
  holds h a xs ->
  exists l h',
    RemindersHandler.addReminder (RemindersHandler.mk a) description tag h
    = (inr tt, h') /\
    RemindersHandler.getReminder (RemindersHandler.mk a)
                                 (Z.of_nat (length xs)) h'
    = (inr (Some l), h') /\
    Reminder.get_description l h' = (inr description, h') /\
    Reminder.get_tag l h' = (inr tag, h') /\
    Reminder.get_isCompleted l h' = (inr false, h') /\
    (l ∉ xs) /\
    (inRange xs index = true ->
     fst (RemindersHandler.getReminder (RemindersHandler.mk a) index h')
     = fst (RemindersHandler.getReminder (RemindersHandler.mk a) index h)).
Proof.
  intros Hh. pose proof Hh as (Harr & Hlive & Hnd).
  exists (length (reminderObjs h)), (added h a xs description tag).
  pose proof (added_array h a xs Harr description tag) as Hnew.
  assert (Hobj : reminderObjs (added h a xs description tag)
                   !! length (reminderObjs h)
                 = Some (mkReminder description tag false))
    by (simpl; now apply list_lookup_middle).
  split; [now apply addReminder_ok|].
  split.
  { apply (getReminder_ok _ _ _ _ _ Hnew).
    - apply inRange_iff. rewrite length_app. simpl. lia.
    - rewrite Nat2Z.id. now apply list_lookup_middle. }
  split; [unfold Reminder.get_description;
          now rewrite (bind_ok _ _ _ _ _ (obj_read_ok _ _ _ Hobj))|].
  split; [unfold Reminder.get_tag;
          now rewrite (bind_ok _ _ _ _ _ (obj_read_ok _ _ _ Hobj))|].
  split; [unfold Reminder.get_isCompleted;
          now rewrite (bind_ok _ _ _ _ _ (obj_read_ok _ _ _ Hobj))|].
  split.
  { intros Hin. pose proof (holds_lt _ _ _ _ Hh Hin). lia. }
  intros Hr. destruct (inRange_lookup _ _ Hr) as [l Hl].
  rewrite (getReminder_ok _ _ _ _ _ Harr Hr Hl).
  rewrite (getReminder_ok _ _ _ _ l Hnew); [reflexivity| |].
  - apply inRange_iff. apply inRange_iff in Hr. rewrite length_app. lia.
  - now apply lookup_app_l_Some.
Qed.

Lemma getReminder_after_addReminder_witness :
  exists l h',
    RemindersHandler.addReminder (RemindersHandler.mk 0) "Call mum" "family"
                                 two_reminders
    = (inr tt, h') /\
    RemindersHandler.getReminder (RemindersHandler.mk 0) 2 h'
    = (inr (Some l), h') /\
    Reminder.get_description l h' = (inr "Call mum", h').
Proof.
  destruct (getReminder_after_addReminder two_reminders 0 [0; 1]%nat
              "Call mum" "family" 0 two_reminders_holds)
    as (l & h' & H1 & H2 & H3 & _).
  exists l, h'. split; [exact H1|]. split; [exact H2 | exact H3].
Defined.

(** ** modifyReminder and the references handed out by getReminder *)

(** At a valid index, [modifyReminder(index, d)] has the effect of the
    assignment [getReminder(index).description = d] on the object that
    [getReminder] hands out, and the description then reads back as [d]
    through [getReminder], with the tag and the flag of that reminder as
    they were. *)
Theorem modifyReminder_read_back
        (h : Heap) (a : loc) (xs : list loc) (index : Z)
        (description : string) :
  holds h a xs ->
  inRange xs index = true ->
  exists l h',
    RemindersHandler.getReminder (RemindersHandler.mk a) index h
    = (inr (Some l), h) /\
    RemindersHandler.modifyReminder (RemindersHandler.mk a) index
                                    description h
    = (inr tt, h') /\
    modify_through_reference (RemindersHandler.mk a) index description h
    = (inr tt, h') /\
    modify_then_read (RemindersHandler.mk a) index description h
    = (inr description, h') /\
    Reminder.get_tag l h' = (inr (tagOf h l), h') /\
    isCompletedOf h' l = isCompletedOf h l.
Proof.
  intros (Harr & Hlive & Hnd) Hr.
  destruct (inRange_lookup _ _ Hr) as [l Hl].
  rewrite Forall_lookup in Hlive. destruct (Hlive _ _ Hl) as [r Hobj].
  pose proof (getReminder_ok _ _ _ _ _ Harr Hr Hl) as Hget.
  pose proof (set_description_ok _ _ _ description Hobj) as Hset.
  set (h' := mkHeap (<[l := mkReminder description (_tag r)
                                      (_isCompleted r)]> (reminderObjs h))
                    (arrays h)) in *.
  assert (Hmod : RemindersHandler.modifyReminder (RemindersHandler.mk a)
                   index description h = (inr tt, h')).
  { unfold RemindersHandler.modifyReminder.
    rewrite (bind_ok _ _ _ _ _ (isIndexValid_ok h a xs Harr index)).
    rewrite Hr. simpl.
    rewrite (bind_ok _ _ _ _ _ (array_get_ok h a xs Harr index)).
    apply inRange_iff in Hr.
    destruct (Z.ltb_spec index 0); [lia|]. rewrite Hl. exact Hset. }
  assert (Hobj' : reminderObjs h' !! l
                  = Some (mkReminder description (_tag r) (_isCompleted r))).
  { simpl. apply list_lookup_insert_eq. now apply lookup_lt_Some in Hobj. }
  exists l, h'. split; [exact Hget|]. split; [exact Hmod|].
  split.
  { unfold modify_through_reference.
    rewrite (bind_ok _ _ _ _ _ Hget). exact Hset. }
  split.
  { unfold modify_then_read. rewrite (bind_ok _ _ _ _ _ Hmod).
    assert (Harr' : arrays h' !! a = Some xs) by exact Harr.
    rewrite (bind_ok _ _ _ _ _ (getReminder_ok _ _ _ _ _ Harr' Hr Hl)).
    cbn [on_object]. unfold Reminder.get_description.
    now rewrite (bind_ok _ _ _ _ _ (obj_read_ok _ _ _ Hobj')). }
  split.
  { unfold Reminder.get_tag, tagOf.
    rewrite (bind_ok _ _ _ _ _ (obj_read_ok _ _ _ Hobj')).
    now rewrite Hobj. }
  unfold isCompletedOf. now rewrite Hobj', Hobj.
Qed.

Lemma modifyReminder_read_back_witness :
  fst (modify_then_read (RemindersHandler.mk 0) 1 "Buy six eggs"
                        two_reminders)
  = inr "Buy six eggs".
Proof.
  destruct (modifyReminder_read_back two_reminders 0 [0; 1]%nat 1
              "Buy six eggs" two_reminders_holds eq_refl)
    as (l & h' & _ & _ & _ & E & _).
  rewrite E. reflexivity.
Defined.

(** ** The tag setter *)

(** The assignment [reminder.tag = tag] throws "Not yet implemented", but
    the write has been made: once the exception is caught the tag reads
    back as the new one, and the description, the flag, every other
    reminder and every array are as before. *)
Theorem set_tag_write_survives
        (h : Heap) (l : loc) (r : ReminderObj) (tag : string) :
  reminderObjs h !! l = Some r ->
  exists h',
    Reminder.set_tag l tag h = (inl NotYetImplemented, h') /\
    Reminder.get_tag l h' = (inr tag, h') /\
    Reminder.get_description l h' = (inr (_description r), h') /\
    Reminder.get_isCompleted l h' = (inr (_isCompleted r), h') /\
    (forall l', l' <> l -> reminderObjs h' !! l' = reminderObjs h !! l') /\
    arrays h' = arrays h.
Proof.
  intros Hobj. eexists. split; [exact (set_tag_throws _ _ _ tag Hobj)|].
  assert (Hobj' : <[l := mkReminder (_description r) tag (_isCompleted r)]>
                    (reminderObjs h) !! l
                  = Some (mkReminder (_description r) tag (_isCompleted r)))
    by (apply list_lookup_insert_eq; now apply lookup_lt_Some in Hobj).
  split; [unfold Reminder.get_tag;
          now erewrite bind_ok by (apply obj_read_ok; exact Hobj')|].
  split; [unfold Reminder.get_description;
          now erewrite bind_ok by (apply obj_read_ok; exact Hobj')|].
  split; [unfold Reminder.get_isCompleted;
          now erewrite bind_ok by (apply obj_read_ok; exact Hobj')|].
  split; [|reflexivity].
  intros l' Hne. simpl. now apply list_lookup_insert_ne.
Qed.

Lemma set_tag_write_survives_witness :
  exists h',
    Reminder.set_tag 1 "dairy" two_reminders = (inl NotYetImplemented, h') /\
    Reminder.get_tag 1 h' = (inr "dairy", h').
Proof.
  destruct (set_tag_write_survives two_reminders 1
              (mkReminder "Buy eggs" "grocery" false) "dairy" eq_refl)
    as (h' & H1 & H2 & _).
  exists h'. split; [exact H1 | exact H2].
Defined.

(** ** More on search *)

(** [search] sees its keyword only through [toLowerCase]: two keywords
    with the same lowercase form give the same result in every heap. *)
Theorem search_keyword_case_insensitive `{Lowercase}
        (h : Heap) (this : RemindersHandler.t) (k1 k2 : string) :
  toLowerCase k1 = toLowerCase k2 ->
  RemindersHandler.search this k1 h = RemindersHandler.search this k2 h.
Proof. intros E. unfold RemindersHandler.search. now rewrite E. Qed.

Lemma search_keyword_case_insensitive_witness :
  @RemindersHandler.search ascii_toLowerCase (RemindersHandler.mk 0)
                           "Buy MILK" two_reminders
  = @RemindersHandler.search ascii_toLowerCase (RemindersHandler.mk 0)
                             "buy milk" two_reminders.
Proof.
  apply (@search_keyword_case_insensitive ascii_toLowerCase).
  reflexivity.
Defined.

Lemma filter_all {A} (f : A -> bool) (xs : list A) :
  (forall x, x ∈ xs -> f x = true) -> List.filter f xs = xs.
Proof.
  induction xs as [|x xs IH]; intros Hf; simpl; [reflexivity|].
  rewrite (Hf x) by now left. f_equal. apply IH.
  intros y Hy. apply Hf. now right.
Qed.

Lemma filter_none {A} (f : A -> bool) (xs : list A) :
  (forall x, x ∈ xs -> f x = false) -> List.filter f xs = [].
Proof.
  induction xs as [|x xs IH]; intros Hf; simpl; [reflexivity|].
  rewrite (Hf x) by now left. apply IH.
  intros y Hy. apply Hf. now right.
Qed.

Lemma includes_empty s : includes s "" = true.
Proof. destruct s; reflexivity. Qed.

(** The empty keyword: when no stored reminder has an empty lowercased
    tag, [search("")] falls through to the descriptions, each of which
    contains the empty string, and returns the whole sequence. *)
Theorem search_empty_keyword `{Lowercase}
        (h : Heap) (a : loc) (xs : list loc) :
  toLowerCase "" = "" ->
  holds h a xs ->
  Forall (fun l => toLowerCase (tagOf h l) <> "") xs ->
  RemindersHandler.search (RemindersHandler.mk a) "" h = (inr xs, h).
Proof.
  intros Hlow Hh Htags. rewrite (search_ok _ _ _ "" Hh).
  rewrite Forall_forall in Htags.
  rewrite (filter_none (tagMatches h "")).
  - rewrite filter_all; [reflexivity|]. intros l _.
    unfold descriptionMatches. rewrite Hlow. apply includes_empty.
  - intros l Hl. unfold tagMatches. rewrite Hlow.
    apply String.eqb_neq. now apply Htags.
Qed.

Lemma search_empty_keyword_witness :
  @RemindersHandler.search ascii_toLowerCase (RemindersHandler.mk 0) ""
                           two_reminders
  = (inr [0; 1]%nat, two_reminders).
Proof.
  apply (@search_empty_keyword ascii_toLowerCase two_reminders 0
                               [0; 1]%nat eq_refl two_reminders_holds).
  repeat constructor; discriminate.
Defined.

(** ** Two handlers *)

(** Handlers do not share their sequence: after a reminder is added to
    one of two new handlers, its [size()] is 1 and the other's is 0. *)
Theorem handlers_do_not_share (h : Heap) (description tag : string) :
  fst (two_handlers description tag h) = inr (1%Z, 0%Z).
Proof.
  unfold two_handlers, RemindersHandler.constructor.
  set (a1 := length (arrays h)).
  set (h1 := mkHeap (reminderObjs h) (arrays h ++ [[]])).
  assert (E1 : (a <- array_new [] ;; ret (RemindersHandler.mk a)) h
               = (inr (RemindersHandler.mk a1), h1)) by reflexivity.
  rewrite (bind_ok _ _ _ _ _ E1).
  set (a2 := length (arrays h1)).
  set (h2 := mkHeap (reminderObjs h1) (arrays h1 ++ [[]])).
  assert (E2 : (a <- array_new [] ;; ret (RemindersHandler.mk a)) h1
               = (inr (RemindersHandler.mk a2), h2)) by reflexivity.
  rewrite (bind_ok _ _ _ _ _ E2).
  assert (Hne : a1 <> a2)
    by (subst a1 a2 h1; simpl; rewrite length_app; simpl; lia).
  assert (H1 : arrays h2 !! a1 = Some []).
  { subst h2. simpl. rewrite lookup_app_l.
    - apply lookup_new_array.
    - subst a1 h1. simpl. rewrite length_app. simpl. lia. }
  assert (H2 : arrays h2 !! a2 = Some []) by apply lookup_new_array.
  rewrite (bind_ok _ _ _ _ _ (addReminder_ok _ _ _ H1 description tag)).
  pose proof (added_array _ _ _ H1 description tag) as H1'.
  assert (H2' : arrays (added h2 a1 [] description tag) !! a2 = Some []).
  { unfold added. cbn [arrays]. rewrite list_lookup_insert_ne by exact Hne.
    exact H2. }
  rewrite (bind_ok _ _ _ _ _ (size_ok _ _ _ H1')).
  rewrite (bind_ok _ _ _ _ _ (size_ok _ _ _ H2')).
  reflexivity.
Qed.

(** ** Witnesses for the handler's toggleCompletion and for InvalidIndex *)


Lemma only_getReminder_raises_witness :
  never_invalid
    (@run ascii_toLowerCase (ToggleCompletionAt (RemindersHandler.mk 0) 1)).
Proof.
  apply (@only_getReminder_raises ascii_toLowerCase). reflexivity.
Defined.

(** ** search and groupByTag together *)

Section SearchAndGroups.
Context `{Lowercase}.

Lemma groupByTag_returns h a xs g :
  holds h a xs ->
  RemindersHandler.groupByTag (RemindersHandler.mk a) h = (inr g, h) ->
  forall key, g !! key = groupingOf h xs key.
Proof.
  intros (Harr & Hlive & _) E. unfold RemindersHandler.groupByTag in E.
  rewrite (bind_ok _ _ _ _ _ (array_read_ok _ _ _ Harr)) in E.
  assert (H0 : forall key,
             (∅ : gmap string (list loc)) !! key = groupingOf h [] key)
    by (intros key; apply lookup_empty).
  destruct (Forall_Exists_dec
              (fun l => toLowerCase (tagOf h l) ∉ Object_prototype_keys)
              (fun l => toLowerCase (tagOf h l) ∈ Object_prototype_keys)
              (fun l => match decide (toLowerCase (tagOf h l)
                                        ∈ Object_prototype_keys) with
                        | left Hin => right Hin
                        | right Hnin => left Hnin
                        end) xs) as [Hall|Hex].
  - destruct (groupByTag_loop_ok h xs [] ∅ H0 Hlive Hall) as (g' & E' & Hg').
    rewrite E' in E. injection E as <-. exact Hg'.
  - rewrite (groupByTag_loop_inherited h xs [] ∅ H0 (Forall_nil_2 _)
                                       Hlive Hex) in E.
    discriminate.
Qed.

(** Whenever [groupByTag()] returns, its group for the lowercased keyword
    is what [search(keyword)] returns; when there is no such group,
    [search] returns the reminders whose lowercased description contains
    the lowercased keyword. *)
Theorem search_agrees_with_groupByTag
        (h : Heap) (a : loc) (xs : list loc) (keyword : string)
        (g : gmap string (list loc)) :
  holds h a xs ->
  RemindersHandler.groupByTag (RemindersHandler.mk a) h = (inr g, h) ->
  RemindersHandler.search (RemindersHandler.mk a) keyword h
  = (inr (match g !! toLowerCase keyword with
          | Some members => members
          | None => List.filter (descriptionMatches h keyword) xs
          end), h).
Proof.
  intros Hh E. rewrite (groupByTag_returns _ _ _ _ Hh E).
  rewrite (search_ok _ _ _ keyword Hh).
  unfold groupingOf, membersOf, tagMatches.
  now destruct (List.filter _ xs).
Qed.

End SearchAndGroups.

Lemma work_home_holds : holds work_home 0 [0; 1; 2]%nat.
Proof.
  split; [reflexivity|]. split.
  - repeat constructor; eexists; reflexivity.
  - apply NoDup_ListNoDup. repeat constructor; simpl; intuition lia.
Qed.

Lemma search_agrees_with_groupByTag_witness :
  @RemindersHandler.search ascii_toLowerCase (RemindersHandler.mk 0)
                           "WORK" work_home
  = (inr [0; 1]%nat, work_home).
Proof.
  exact (@search_agrees_with_groupByTag ascii_toLowerCase work_home 0
           [0; 1; 2]%nat "WORK"
           (<["work" := [0; 1]%nat]> (<["home" := [2%nat]]> ∅))
           work_home_holds eq_refl).
Defined.

(** ** The second copy of the handler, as it behaves *)

(** [search(keyword)] of the second copy returns the reminders whose tag
    is the keyword, character for character, in the order of the
    sequence; only when there is none does it return those whose
    lowercased description contains the lowercased keyword.  The heap is
    left as it was. *)
Theorem search_part000_spec `{Lowercase}
        (h : Heap) (a : loc) (ptag : string) (xs : list loc)
        (keyword : string) :
  holds h a xs ->
  Part000.search (Part000.mk a ptag) keyword h
  = (inr (match List.filter (tagEquals h keyword) xs with
          | [] => List.filter (descriptionMatches h keyword) xs
          | l :: ls => l :: ls
          end), h).
Proof.
  intros (Harr & Hlive & _). unfold Part000.search.
  rewrite (bind_ok _ _ _ _ _ (array_read_ok _ _ _ Harr)).
  rewrite Forall_forall in Hlive.
  rewrite (bind_ok _ _ h (List.filter (tagEquals h keyword) xs) h).
  - destruct (List.filter (tagEquals h keyword) xs) as [|l ls]; simpl.
    + rewrite (bind_ok _ _ _ _ _ (array_read_ok _ _ _ Harr)).
      apply filterM_pure. intros x Hx.
      now rewrite (bind_ok _ _ _ _ _ (get_description_ok _ _ (Hlive _ Hx))).
    + destruct (length ls); reflexivity.
  - apply filterM_pure. intros x Hx.
    now rewrite (bind_ok _ _ _ _ _ (get_tag_ok _ _ (Hlive _ Hx))).
Qed.

Lemma search_part000_spec_witness :
  @Part000.search ascii_toLowerCase (Part000.mk 0 "") "MILK" two_reminders
  = (inr [0%nat], two_reminders).
Proof.
  exact (@search_part000_spec ascii_toLowerCase two_reminders 0 ""
                              [0; 1]%nat "MILK" two_reminders_holds).
Defined.

Lemma filter_snoc {A} (f : A -> bool) (xs : list A) (x : A) :
  List.filter f (xs ++ [x])
  = List.filter f xs ++ (if f x then [x] else []).
Proof. now rewrite List.filter_app. Qed.

(** One iteration of the second copy's loop on a tag that is not a member
    of [Object.prototype]. *)
Lemma group_step' h pre (g : gmap string (list loc)) r :
  (forall key, g !! key = groupingOf' h pre key) ->
  tagOf h r ∉ Object_prototype_keys ->
  exists g',
    (if falsy (get_property g (tagOf h r))
     then ret (<[tagOf h r := []]> g)
     else push_property g (tagOf h r) r) h
    = (inr g', h) /\
    forall key, g' !! key = groupingOf' h (pre ++ [r]) key.
Proof.
  intros Hg Hproto.
  assert (Hother : forall key, tagOf h r <> key ->
             groupingOf' h (pre ++ [r]) key = groupingOf' h pre key).
  { intros key Hne. unfold groupingOf'. rewrite filter_snoc.
    unfold tagEquals at 2. apply String.eqb_neq in Hne. rewrite Hne.
    now rewrite app_nil_r. }
  assert (Hsame : groupingOf' h (pre ++ [r]) (tagOf h r)
                  = Some (match groupingOf' h pre (tagOf h r) with
                          | Some ms => ms ++ [r]
                          | None => []
                          end)).
  { unfold groupingOf'. rewrite filter_snoc.
    unfold tagEquals at 2. rewrite String.eqb_refl.
    now destruct (List.filter _ pre). }
  unfold push_property, get_property.
  destruct (g !! tagOf h r) as [ms|] eqn:E; simpl.
  - eexists. split; [reflexivity|]. intros key.
    destruct (decide (tagOf h r = key)) as [<-|Hne].
    + rewrite lookup_insert_eq, Hsame, <- Hg, E. reflexivity.
    + rewrite lookup_insert_ne by exact Hne.
      rewrite Hother by exact Hne. apply Hg.
  - rewrite bool_decide_eq_false_2 by exact Hproto. simpl.
    eexists. split; [reflexivity|]. intros key.
    destruct (decide (tagOf h r = key)) as [<-|Hne].
    + rewrite lookup_insert_eq, Hsame, <- Hg, E. reflexivity.
    + rewrite lookup_insert_ne by exact Hne.
      rewrite Hother by exact Hne. apply Hg.
Qed.

Lemma groupByTag_loop'_ok h rest : forall pre g,
  (forall key, g !! key = groupingOf' h pre key) ->
  Forall (fun l => is_Some (reminderObjs h !! l)) rest ->
  Forall (fun l => tagOf h l ∉ Object_prototype_keys) rest ->
  exists g',
    Part000.groupByTag_loop rest g h = (inr g', h) /\
    forall key, g' !! key = groupingOf' h (pre ++ rest) key.
Proof.
  induction rest as [|r rest IH]; intros pre g Hg Hlive Hproto; simpl.
  - exists g. split; [reflexivity|]. now rewrite app_nil_r.
  - inversion Hlive as [|? ? Hr Hlive']; subst.
    inversion Hproto as [|? ? Hp Hproto']; subst.
    rewrite (bind_ok _ _ _ _ _ (get_tag_ok _ _ Hr)).
    destruct (group_step' h pre g r Hg Hp) as (g1 & E1 & Hg1).
    rewrite (bind_ok _ _ _ _ _ E1).
    destruct (IH (pre ++ [r]) g1 Hg1 Hlive' Hproto') as (g' & E' & Hg').
    exists g'. split; [exact E'|].
    intros key. rewrite Hg'. now rewrite <- app_assoc.
Qed.

(** [groupByTag()] of the second copy, when no tag is the name of a member
    of [Object.prototype]: the keys are the tags as they are written, and
    the group of a tag lists the reminders carrying it in the order of the
    sequence, except the first of them, which only creates the group. *)
Theorem groupByTag_part000_spec
        (h : Heap) (a : loc) (ptag : string) (xs : list loc) :
  holds h a xs ->
  Forall (fun l => tagOf h l ∉ Object_prototype_keys) xs ->
  exists g,
    Part000.groupByTag (Part000.mk a ptag) h = (inr g, h) /\
    (forall key, g !! key = groupingOf' h xs key) /\
    (forall key, is_Some (g !! key) <->
                 exists l, l ∈ xs /\ tagOf h l = key) /\
    (forall key members,
        g !! key = Some members ->
        length members
        = Nat.pred (length (List.filter (tagEquals h key) xs))).
Proof.
  intros (Harr & Hlive & _) Hproto. unfold Part000.groupByTag.
  rewrite (bind_ok _ _ _ _ _ (array_read_ok _ _ _ Harr)).
  assert (H0 : forall key,
             (∅ : gmap string (list loc)) !! key = groupingOf' h [] key)
    by (intros key; apply lookup_empty).
  destruct (groupByTag_loop'_ok h xs [] ∅ H0 Hlive Hproto) as (g & E & Hg).
  simpl in Hg. exists g. split; [exact E|]. split; [exact Hg|].
  assert (Hmem : forall key l,
             l ∈ List.filter (tagEquals h key) xs <->
             l ∈ xs /\ tagOf h l = key).
  { intros key l. unfold tagEquals.
    rewrite !list_elem_of_In, filter_In, String.eqb_eq. reflexivity. }
  split.
  - intros key. rewrite Hg. unfold groupingOf'.
    destruct (List.filter (tagEquals h key) xs) as [|m ms] eqn:Em.
    + split; [intros [? ?]; discriminate|].
      intros (l & Hl & Ht). exfalso.
      assert (Hin : l ∈ List.filter (tagEquals h key) xs) by now apply Hmem.
      rewrite Em in Hin. inversion Hin.
    + split; [|eauto]. intros _. exists m. apply Hmem.
      rewrite Em. now left.
  - intros key members. rewrite Hg. unfold groupingOf'.
    destruct (List.filter (tagEquals h key) xs) as [|m ms];
      [discriminate|]. intros [= <-]. reflexivity.
Qed.

Lemma groupByTag_part000_spec_witness :
  exists g,
    Part000.groupByTag (Part000.mk 0 "") work_home = (inr g, work_home) /\
    g !! "Work" = Some [] /\ g !! "grocery" = None.
Proof.
  destruct (groupByTag_part000_spec work_home 0 "" [0; 1; 2]%nat
                                    work_home_holds)
    as (g & E & Hg & _).
  - repeat constructor; vm_compute; intros Hin;
      repeat (apply elem_of_cons in Hin as [Hin|Hin]; [discriminate|]);
      inversion Hin.
  - exists g. split; [exact E|]. rewrite !Hg. split; reflexivity.
Defined.

(** ** The stored sequence only grows *)

Lemma preserves_ret {A} a xs0 (x : A) : preserves a xs0 (ret x).
Proof. now apply hoare_ret. Qed.

Lemma preserves_throw {A} a xs0 e : preserves a xs0 (@throw A e).
Proof. now apply hoare_throw. Qed.

Lemma preserves_bind {A B} a xs0 (m : M A) (k : A -> M B) :
  preserves a xs0 m -> (forall x, preserves a xs0 (k x)) ->
  preserves a xs0 (bind m k).
Proof. intros Hm Hk. eapply hoare_bind; [exact Hm | intros x; apply Hk]. Qed.

Lemma preserves_void {A} a xs0 (m : M A) :
  preserves a xs0 m -> preserves a xs0 (void m).
Proof.
  intros Hm. apply preserves_bind; [exact Hm|].
  intros; apply preserves_ret.
Qed.

(** A heap with the same arrays at [a] and at least the same live objects
    is as good. *)
Lemma grown_frame a xs0 h h' :
  arrays h' !! a = arrays h !! a ->
  (forall l, is_Some (reminderObjs h !! l) ->
             is_Some (reminderObjs h' !! l)) ->
  grown a xs0 h -> grown a xs0 h'.
Proof.
  intros Ha Hobjs (xs & (Harr & Hlive & Hnd) & Hpre).
  exists xs. split; [|exact Hpre].
  split; [now rewrite Ha|]. split; [|exact Hnd].
  eapply Forall_impl; [exact Hlive | exact Hobjs].
Qed.

Lemma preserves_obj_new a xs0 r : preserves a xs0 (obj_new r).
Proof.
  intros h Hg. simpl. apply (grown_frame a xs0 h); [reflexivity| |exact Hg].
  intros l [o Ho]. exists o. simpl. now apply lookup_app_l_Some.
Qed.

Lemma preserves_obj_read a xs0 l : preserves a xs0 (obj_read l).
Proof.
  intros h Hg. unfold obj_read. now destruct (reminderObjs h !! l).
Qed.

Lemma preserves_obj_write a xs0 l r : preserves a xs0 (obj_write l r).
Proof.
  intros h Hg. simpl. apply (grown_frame a xs0 h); [reflexivity| |exact Hg].
  intros l' Hl'. simpl. apply lookup_lt_is_Some.
  rewrite length_insert. now apply lookup_lt_is_Some.
Qed.

Lemma preserves_array_new a xs0 ys : preserves a xs0 (array_new ys).
Proof.
  intros h Hg. simpl. apply (grown_frame a xs0 h); [|auto|exact Hg].
  destruct Hg as (xs & (Harr & _) & _). simpl.
  rewrite Harr. now apply lookup_app_l_Some.
Qed.

Lemma preserves_array_read a xs0 b : preserves a xs0 (array_read b).
Proof.
  intros h Hg. unfold array_read. now destruct (arrays h !! b).
Qed.

Lemma preserves_array_push a xs0 b x :
  a <> b -> preserves a xs0 (array_push b x).
Proof.
  intros Hne h Hg. unfold array_push, bind, array_read.
  destruct (arrays h !! b) as [ys|]; [|exact Hg].
  apply (grown_frame a xs0 h); [|auto|exact Hg].
  simpl. apply list_lookup_insert_ne. congruence.
Qed.

Lemma preserves_array_pop a xs0 b :
  a <> b -> preserves a xs0 (array_pop b).
Proof.
  intros Hne h Hg. unfold array_pop, bind, array_read.
  destruct (arrays h !! b) as [ys|]; [|exact Hg].
  apply (grown_frame a xs0 h); [|auto|exact Hg].
  simpl. apply list_lookup_insert_ne. congruence.
Qed.

Lemma grown_added a xs0 h xs description tag :
  holds h a xs -> xs0 `prefix_of` xs ->
  grown a xs0 (added h a xs description tag).
Proof.
  intros Hh Hpre. exists (xs ++ [length (reminderObjs h)]).
  split; [now apply holds_added | now apply prefix_app_r].
Qed.

(** [addReminder] on the handler of [a] itself appends to its sequence. *)
Lemma preserves_addReminder_same a xs0 description tag :
  preserves a xs0
    (RemindersHandler.addReminder (RemindersHandler.mk a) description tag).
Proof.
  intros h (xs & Hh & Hpre). pose proof Hh as (Harr & _).
  rewrite (addReminder_ok _ _ _ Harr). now apply grown_added.
Qed.

Lemma preserves_addReminder'_same a xs0 ptag description tag :
  preserves a xs0
    (Part000.addReminder (Part000.mk a ptag) description tag).
Proof.
  intros h (xs & Hh & Hpre). pose proof Hh as (Harr & _).
  rewrite (addReminder'_ok _ _ _ Harr). now apply grown_added.
Qed.

Ltac grow_step :=
  first
    [ apply preserves_ret
    | apply preserves_throw
    | apply preserves_obj_read
    | apply preserves_obj_write
    | apply preserves_obj_new
    | apply preserves_array_read
    | apply preserves_array_new
    | apply preserves_array_push; assumption
    | apply preserves_array_pop; assumption
    | apply preserves_void
    | apply preserves_bind; [| intros ?]
    | match goal with
      | |- preserves _ _ (if ?b then _ else _) => destruct b
      | |- preserves _ _ (on_object ?v _) => destruct v; simpl
      | |- preserves _ _ (match get_property ?g ?k with _ => _ end) =>
          destruct (get_property g k)
      end ].

Lemma preserves_filterM a xs0 p xs :
  (forall x, preserves a xs0 (p x)) -> preserves a xs0 (filterM p xs).
Proof.
  intros Hp. induction xs as [|x xs IH]; simpl; [grow_step|].
  apply preserves_bind; [apply Hp|]. intros b.
  apply preserves_bind; [apply IH|]. intros; grow_step.
Qed.

Section Growth.
Context `{Lowercase}.

Lemma preserves_groupByTag_loop a xs0 rs : forall g,
  preserves a xs0 (RemindersHandler.groupByTag_loop rs g).
Proof.
  induction rs as [|r rs IH]; intros g; simpl; [grow_step|].
  unfold Reminder.get_tag, push_property.
  apply preserves_bind; [repeat grow_step|]. intros t.
  apply preserves_bind; [repeat grow_step | intros; apply IH].
Qed.

Lemma preserves_groupByTag_loop' a xs0 rs : forall g,
  preserves a xs0 (Part000.groupByTag_loop rs g).
Proof.
  induction rs as [|r rs IH]; intros g; simpl; [grow_step|].
  unfold Reminder.get_tag, push_property.
  apply preserves_bind; [repeat grow_step|]. intros t.
  apply preserves_bind; [repeat grow_step | intros; apply IH].
Qed.

(** Every operation of the two classes, and every client push or pop on
    another array, keeps the sequence of [a] growing at its end. *)
Lemma preserves_run a xs0 c :
  client_writes a c = false -> preserves a xs0 (run c).
Proof.
  destruct c; simpl; intros Hc;
    try (apply Nat.eqb_neq in Hc);
    try match goal with
        | this : RemindersHandler.t |- context [RemindersHandler.addReminder] =>
            destruct this as [b]; destruct (decide (a = b)) as [<-|Hne];
            [apply preserves_addReminder_same|]
        | this : Part000.t |- context [Part000.addReminder] =>
            destruct this as [b ptag]; destruct (decide (a = b)) as [<-|Hne];
            [apply preserves_addReminder'_same|]
        end;
    unfold Reminder.constructor, Reminder.get_description,
      Reminder.set_description, Reminder.get_tag, Reminder.set_tag,
      Reminder.get_isCompleted, Reminder.toggleCompletion,
      RemindersHandler.constructor, RemindersHandler.reminders,
      RemindersHandler.addReminder, RemindersHandler.getReminder,
      RemindersHandler.modifyReminder,
      RemindersHandler.toggleCompletion, RemindersHandler.search,
      RemindersHandler.searchTags, RemindersHandler.searchDescriptions,
      RemindersHandler.groupByTag, RemindersHandler.isIndexValid,
      RemindersHandler.size,
      Part000.constructor, Part000.reminders, Part000.addReminder,
      Part000.getReminder,
      Part000.modifyReminder, Part000.toggleCompletion, Part000.search,
      Part000.groupByTag, Part000.isIndexValid, Part000.size,
      Reminder.constructor, Reminder.set_description,
      Reminder.toggleCompletion, Reminder.get_isCompleted,
      array_length, array_get;
    cbn [RemindersHandler._reminders Part000._reminders];
    repeat first
           [ apply preserves_groupByTag_loop
           | apply preserves_groupByTag_loop'
           | apply preserves_filterM; intros ?;
             unfold Reminder.get_tag, Reminder.get_description
           | grow_step ].
Qed.

Lemma exec_grown a xs0 cs : forall h,
  Forall (fun c => client_writes a c = false) cs ->
  grown a xs0 h -> grown a xs0 (exec cs h).
Proof.
  induction cs as [|c cs IH]; intros h Hcs Hg; simpl; [exact Hg|].
  inversion Hcs as [|? ? Hc Hcs']; subst.
  apply IH; [exact Hcs'|].
  pose proof (preserves_run a xs0 c Hc h Hg) as Hrun.
  now destruct (run c h) as [[e|u] h'].
Qed.

(** No operation of the two classes removes or reorders stored reminders:
    as long as the client does not itself push on or pop from the stored
    array, after any sequence of operations, exceptions included, the
    stored sequence is the old one followed by the reminders added since;
    every index keeps the reminder object it had, and [size()] has not
    decreased. *)
Theorem sequence_only_grows
        (h : Heap) (a : loc) (xs : list loc) (cs : list Call) :
  holds h a xs ->
  Forall (fun c => client_writes a c = false) cs ->
  exists xs',
    holds (exec cs h) a xs' /\
    xs `prefix_of` xs' /\
    (forall i l, xs !! i = Some l -> xs' !! i = Some l) /\
    (length xs <= length xs')%nat /\
    RemindersHandler.size (RemindersHandler.mk a) (exec cs h)
    = (inr (Z.of_nat (length xs')), exec cs h).
Proof.
  intros Hh Hcs.
  destruct (exec_grown a xs cs h Hcs) as (xs' & Hh' & Hpre).
  { exists xs. split; [exact Hh | reflexivity]. }
  exists xs'. split; [exact Hh'|]. split; [exact Hpre|].
  split; [intros i l Hl; now apply (prefix_lookup_Some xs xs')|].
  split; [now apply prefix_length|].
  destruct Hh' as (Harr' & _). now apply size_ok.
Qed.

End Growth.

Lemma sequence_only_grows_witness :
  exists xs',
    holds (@exec ascii_toLowerCase
                 [ AddReminder (RemindersHandler.mk 0) "Call mum" "family";
                   ToggleCompletionAt (RemindersHandler.mk 0) 0;
                   SetTag 1 "dairy";
                   Reminders (RemindersHandler.mk 0);
                   ArrayPop 1 ]
                 two_reminders) 0 xs' /\
    [0; 1]%nat `prefix_of` xs'.
Proof.
  destruct (@sequence_only_grows ascii_toLowerCase two_reminders 0
              [0; 1]%nat
              [ AddReminder (RemindersHandler.mk 0) "Call mum" "family";
                ToggleCompletionAt (RemindersHandler.mk 0) 0;
                SetTag 1 "dairy";
                Reminders (RemindersHandler.mk 0);
                ArrayPop 1 ]
              two_reminders_holds)
    as (xs' & H1 & H2 & _).
  - repeat constructor.
  - exists xs'. split; [exact H1 | exact H2].
Defined.

(** ** Which operations can change which field *)

Section Fields.
Context {X : Type} (f : ReminderObj -> X) (h0 : Heap).

Lemma kept_refl : kept f h0 h0.
Proof. intros l r0 E. now exists r0. Qed.

Lemma kept_same_objs h h' :
  reminderObjs h' = reminderObjs h -> kept f h0 h -> kept f h0 h'.
Proof. intros E Hk l r0 Hl. rewrite E. now apply Hk. Qed.

Lemma kept_write h l r r' :
  reminderObjs h !! l = Some r -> f r' = f r ->
  kept f h0 h ->
  kept f h0 (mkHeap (<[l := r']> (reminderObjs h)) (arrays h)).
Proof.
  intros Hl Hf Hk l' r0 Hl'. destruct (Hk _ _ Hl') as (r1 & Hr1 & Hf1).
  simpl. destruct (decide (l = l')) as [<-|Hne].
  - exists r'. split.
    + apply list_lookup_insert_eq. now apply lookup_lt_Some in Hl.
    + rewrite Hf. congruence.
  - exists r1. split; [|exact Hf1]. now rewrite list_lookup_insert_ne.
Qed.

Lemma keeps_field_ret {A} (x : A) : keeps_field f h0 (ret x).
Proof. now apply hoare_ret. Qed.

Lemma keeps_field_throw {A} e : keeps_field f h0 (@throw A e).
Proof. now apply hoare_throw. Qed.

Lemma keeps_field_bind {A B} (m : M A) (k : A -> M B) :
  keeps_field f h0 m -> (forall x, keeps_field f h0 (k x)) ->
  keeps_field f h0 (bind m k).
Proof. intros Hm Hk. eapply hoare_bind; [exact Hm | intros x; apply Hk]. Qed.

Lemma keeps_field_void {A} (m : M A) :
  keeps_field f h0 m -> keeps_field f h0 (void m).
Proof.
  intros Hm. apply keeps_field_bind; [exact Hm|].
  intros; apply keeps_field_ret.
Qed.

Lemma keeps_field_obj_new r : keeps_field f h0 (obj_new r).
Proof.
  intros h Hk l r0 Hl. destruct (Hk _ _ Hl) as (r1 & Hr1 & Hf1).
  exists r1. split; [|exact Hf1]. simpl. now apply lookup_app_l_Some.
Qed.

Lemma keeps_field_obj_read l : keeps_field f h0 (obj_read l).
Proof.
  intros h Hk. unfold obj_read. now destruct (reminderObjs h !! l).
Qed.

Lemma keeps_field_array_new ys : keeps_field f h0 (array_new ys).
Proof. intros h Hk. now apply (kept_same_objs h). Qed.

Lemma keeps_field_array_read b : keeps_field f h0 (array_read b).
Proof.
  intros h Hk. unfold array_read. now destruct (arrays h !! b).
Qed.

Lemma keeps_field_array_push b x : keeps_field f h0 (array_push b x).
Proof.
  intros h Hk. unfold array_push, bind, array_read.
  destruct (arrays h !! b); [|exact Hk]. now apply (kept_same_objs h).
Qed.

Lemma keeps_field_array_pop b : keeps_field f h0 (array_pop b).
Proof.
  intros h Hk. unfold array_pop, bind, array_read.
  destruct (arrays h !! b); [|exact Hk]. now apply (kept_same_objs h).
Qed.

Lemma keeps_field_set_description l d :
  ignores_description f -> keeps_field f h0 (Reminder.set_description l d).
Proof.
  intros Hf h Hk. unfold Reminder.set_description, bind, obj_read.
  destruct (reminderObjs h !! l) as [r|] eqn:E; [|exact Hk].
  apply (kept_write h l r); [exact E | apply Hf | exact Hk].
Qed.

Lemma keeps_field_set_tag l t :
  ignores_tag f -> keeps_field f h0 (Reminder.set_tag l t).
Proof.
  intros Hf h Hk. unfold Reminder.set_tag, bind, obj_read.
  destruct (reminderObjs h !! l) as [r|] eqn:E; [|exact Hk].
  apply (kept_write h l r); [exact E | apply Hf | exact Hk].
Qed.

Lemma keeps_field_toggleCompletion l :
  keeps_field f h0 (Reminder.toggleCompletion l).
Proof. intros h Hk. now rewrite toggleCompletion_throws. Qed.

Lemma keeps_field_filterM p xs :
  (forall x, keeps_field f h0 (p x)) -> keeps_field f h0 (filterM p xs).
Proof.
  intros Hp. induction xs as [|x xs IH]; simpl; [apply keeps_field_ret|].
  apply keeps_field_bind; [apply Hp|]. intros b.
  apply keeps_field_bind; [apply IH|]. intros; apply keeps_field_ret.
Qed.

Ltac field_step :=
  first
    [ apply keeps_field_ret
    | apply keeps_field_throw
    | apply keeps_field_toggleCompletion
    | apply keeps_field_set_description; assumption
    | apply keeps_field_set_tag; assumption
    | apply keeps_field_obj_read
    | apply keeps_field_obj_new
    | apply keeps_field_array_read
    | apply keeps_field_array_new
    | apply keeps_field_array_push
    | apply keeps_field_array_pop
    | apply keeps_field_void
    | apply keeps_field_filterM; intros ?
    | apply keeps_field_bind; [| intros ?]
    | match goal with
      | |- keeps_field _ _ (if ?b then _ else _) => destruct b
      | |- keeps_field _ _ (on_object ?v _) => destruct v; simpl
      | |- keeps_field _ _ (match get_property ?g ?k with _ => _ end) =>
          destruct (get_property g k)
      end ].

Context `{Lowercase}.

Lemma keeps_field_groupByTag_loop rs : forall g,
  keeps_field f h0 (RemindersHandler.groupByTag_loop rs g).
Proof.
  induction rs as [|r rs IH]; intros g; simpl; [field_step|].
  unfold Reminder.get_tag, push_property.
  apply keeps_field_bind; [repeat field_step|]. intros t.
  apply keeps_field_bind; [repeat field_step | intros; apply IH].
Qed.

Lemma keeps_field_groupByTag_loop' rs : forall g,
  keeps_field f h0 (Part000.groupByTag_loop rs g).
Proof.
  induction rs as [|r rs IH]; intros g; simpl; [field_step|].
  unfold Reminder.get_tag, push_property.
  apply keeps_field_bind; [repeat field_step|]. intros t.
  apply keeps_field_bind; [repeat field_step | intros; apply IH].
Qed.

(** An operation keeps every view that ignores the fields it assigns. *)
Lemma keeps_field_run c :
  (writes_description c = true -> ignores_description f) ->
  (writes_tag c = true -> ignores_tag f) ->
  keeps_field f h0 (run c).
Proof.
  intros Hd Ht.
  destruct c; simpl in *;
    try (specialize (Hd eq_refl)); try (specialize (Ht eq_refl));
    unfold Reminder.constructor, Reminder.get_description,
      Reminder.get_tag, Reminder.get_isCompleted,
      RemindersHandler.constructor, RemindersHandler.reminders,
      RemindersHandler.addReminder, RemindersHandler.getReminder,
      RemindersHandler.modifyReminder,
      RemindersHandler.toggleCompletion, RemindersHandler.search,
      RemindersHandler.searchTags, RemindersHandler.searchDescriptions,
      RemindersHandler.groupByTag, RemindersHandler.isIndexValid,
      RemindersHandler.size,
      Part000.constructor, Part000.reminders, Part000.addReminder,
      Part000.getReminder,
      Part000.modifyReminder, Part000.toggleCompletion, Part000.search,
      Part000.groupByTag, Part000.isIndexValid, Part000.size,
      Reminder.constructor, array_length, array_get;
    repeat first
           [ apply keeps_field_groupByTag_loop
           | apply keeps_field_groupByTag_loop'
           | field_step; unfold Reminder.get_tag, Reminder.get_description ].
Qed.

Lemma exec_kept cs : forall h,
  Forall (fun c => (writes_description c = true -> ignores_description f) /\
                   (writes_tag c = true -> ignores_tag f)) cs ->
  kept f h0 h -> kept f h0 (exec cs h).
Proof.
  induction cs as [|c cs IH]; intros h Hcs Hk; simpl; [exact Hk|].
  inversion Hcs as [|? ? [Hd Ht] Hcs']; subst.
  apply IH; [exact Hcs'|].
  pose proof (keeps_field_run c Hd Ht h Hk) as Hrun.
  now destruct (run c h) as [[e|u] h'].
Qed.

End Fields.

Section FieldTheorems.
Context `{Lowercase}.

(** No operation of the handlers changes a tag: after any sequence of
    operations that does not use the tag setter of [Reminder], every
    reminder still exists and has the tag it had. *)
Theorem tags_change_only_through_setter
        (h : Heap) (cs : list Call) (l : loc) (r : ReminderObj) :
  Forall (fun c => writes_tag c = false) cs ->
  reminderObjs h !! l = Some r ->
  exists r', reminderObjs (exec cs h) !! l = Some r' /\
             _tag r' = _tag r /\
             tagOf (exec cs h) l = tagOf h l.
Proof.
  intros Hcs Hl.
  destruct (exec_kept _tag h cs h) with (l := l) (r0 := r)
    as (r' & Hr' & Ht); [| apply kept_refl | exact Hl |].
  - eapply Forall_impl; [exact Hcs|]. intros c Hc. split.
    + intros _ r0 d. reflexivity.
    + rewrite Hc. discriminate.
  - exists r'. split; [exact Hr'|]. split; [exact Ht|].
    unfold tagOf. now rewrite Hr', Hl.
Qed.

(** A description changes only through the description setter or
    [modifyReminder]: after any sequence of other operations, every
    reminder still exists and has the description it had. *)
Theorem descriptions_change_only_through_modify
        (h : Heap) (cs : list Call) (l : loc) (r : ReminderObj) :
  Forall (fun c => writes_description c = false) cs ->
  reminderObjs h !! l = Some r ->
  exists r', reminderObjs (exec cs h) !! l = Some r' /\
             _description r' = _description r /\
             descriptionOf (exec cs h) l = descriptionOf h l.
Proof.
  intros Hcs Hl.
  destruct (exec_kept _description h cs h) with (l := l) (r0 := r)
    as (r' & Hr' & Hd); [| apply kept_refl | exact Hl |].
  - eapply Forall_impl; [exact Hcs|]. intros c Hc. split.
    + rewrite Hc. discriminate.
    + intros _ r0 t. reflexivity.
  - exists r'. split; [exact Hr'|]. split; [exact Hd|].
    unfold descriptionOf. now rewrite Hr', Hl.
Qed.

(** No operation at all changes a completion flag or removes a reminder
    object: after any sequence of operations from any heap, every reminder
    has the flag it had. *)
Theorem completion_flag_never_changes
        (h : Heap) (cs : list Call) (l : loc) (b : bool) :
  isCompletedOf h l = Some b ->
  isCompletedOf (exec cs h) l = Some b.
Proof.
  unfold isCompletedOf. intros Hb.
  destruct (reminderObjs h !! l) as [r|] eqn:Hl; [|discriminate].
  destruct (exec_kept _isCompleted h cs h) with (l := l) (r0 := r)
    as (r' & Hr' & Hc); [| apply kept_refl | exact Hl |].
  - apply Forall_forall. intros c _. split.
    + intros _ r0 d. reflexivity.
    + intros _ r0 t. reflexivity.
  - rewrite Hr'. simpl in *. congruence.
Qed.

End FieldTheorems.

Lemma tags_change_only_through_setter_witness :
  tagOf (@exec ascii_toLowerCase
               [ ModifyReminder (RemindersHandler.mk 0) 0 "Buy oat milk";
                 ToggleCompletionAt (RemindersHandler.mk 0) 0;
                 AddReminder (RemindersHandler.mk 0) "Call mum" "family" ]
               two_reminders) 0
  = "Grocery".
Proof.
  destruct (@tags_change_only_through_setter ascii_toLowerCase two_reminders
              [ ModifyReminder (RemindersHandler.mk 0) 0 "Buy oat milk";
                ToggleCompletionAt (RemindersHandler.mk 0) 0;
                AddReminder (RemindersHandler.mk 0) "Call mum" "family" ]
              0 (mkReminder "Buy Milk" "Grocery" false))
    as (r' & _ & _ & E).
  - repeat constructor.
  - reflexivity.
  - exact E.
Defined.

Lemma descriptions_change_only_through_modify_witness :
  descriptionOf (@exec ascii_toLowerCase
                       [ SetTag 0 "dairy";
                         ToggleCompletionAt (RemindersHandler.mk 0) 0;
                         Search (RemindersHandler.mk 0) "milk" ]
                       two_reminders) 0
  = "Buy Milk".
Proof.
  destruct (@descriptions_change_only_through_modify ascii_toLowerCase
              two_reminders
              [ SetTag 0 "dairy";
                ToggleCompletionAt (RemindersHandler.mk 0) 0;
                Search (RemindersHandler.mk 0) "milk" ]
              0 (mkReminder "Buy Milk" "Grocery" false))
    as (r' & _ & _ & E).
  - repeat constructor.
  - reflexivity.
  - exact E.
Defined.

Lemma completion_flag_never_changes_witness :
  isCompletedOf (@exec ascii_toLowerCase
                       [ ToggleCompletion 0;
                         ToggleCompletionAt (RemindersHandler.mk 0) 0;
                         NewReminder "x" "y" (Some true) ]
                       two_reminders) 0
  = Some false.
Proof.
  apply (@completion_flag_never_changes ascii_toLowerCase). reflexivity.
Defined.
